(** * network-sh: keyword network and topic-model pipeline

    A shallow embedding of the analysis pipeline of the dashboard
    (utils/text_preprocessing.py, utils/network_analysis.py,
    utils/topic_modeling.py and the driver in app.py), with the properties
    of the specification stated and settled against it. *)

From Stdlib Require Import QArith Qround Lqa.
From stdpp Require Import base numbers list sorting gmap sets strings.

Local Open Scope Z_scope.

(** ** Python strings

    A Python [str] is a sequence of Unicode code points; [len], comparison,
    [in] and the regular expressions of the source all work code point by code
    point, so a string is modelled as the list of its code points. *)
Module PyStr.

Abbreviation char := N (only parsing).
Abbreviation str := (list N) (only parsing).

(** An ASCII literal as a Python string. *)
Definition py (s : string) : str := Ascii.N_of_ascii <$> String.list_ascii_of_string s.

Definition space : char := 32%N.

(** [a <= b] on strings: lexicographic on code points. *)
Fixpoint str_leb (a b : str) : bool :=
  match a, b with
  | [], _ => true
  | _ :: _, [] => false
  | x :: a', y :: b' =>
      if decide (x = y) then str_leb a' b' else bool_decide (x < y)%N
  end.

(** [s.startswith(p)]. *)
Fixpoint is_prefix (p s : str) : bool :=
  match p, s with
  | [], _ => true
  | _ :: _, [] => false
  | x :: p', y :: s' => bool_decide (x = y) && is_prefix p' s'
  end.

(** [needle in hay]. *)
Fixpoint is_substring (needle hay : str) : bool :=
  is_prefix needle hay ||
  match hay with
  | [] => false
  | _ :: hay' => is_substring needle hay'
  end.

(** The mathematical reading of [needle in hay]. *)
Definition substring_of (needle hay : str) : Prop :=
  ∃ pre post, hay = pre ++ needle ++ post.

(** [sep.join(words)]. *)
Fixpoint join (sep : str) (words : list str) : str :=
  match words with
  | [] => []
  | [w] => w
  | w :: ws => w ++ sep ++ join sep ws
  end.

(** [s.split(' ')] without the empty pieces, the tokenization of plain
    space-separated words. *)
Fixpoint split_acc (cur : str) (s : str) : list str :=
  match s with
  | [] => if decide (cur = []) then [] else [cur]
  | c :: s' =>
      if decide (c = space)
      then (if decide (cur = []) then split_acc [] s' else cur :: split_acc [] s')
      else split_acc (cur ++ [c]) s'
  end.
Definition split_words (s : str) : list str := split_acc [] s.

(** [s.split(sep)] for a separator of one character: the pieces between the
    separators, empty pieces included. *)
Fixpoint split_char (sep : char) (s : str) : list str :=
  match s with
  | [] => [[]]
  | c :: s' =>
      if decide (c = sep) then [] :: split_char sep s'
      else
        match split_char sep s' with
        | [] => [[c]]
        | piece :: pieces => (c :: piece) :: pieces
        end
  end.

Definition comma : char := 44%N.

(** ASCII case folding, an instance of [str.lower] on ASCII text. *)
Definition ascii_lower (s : str) : str :=
  (λ c, if bool_decide (65 ≤ c ≤ 90)%N then (c + 32)%N else c) <$> s.

(** ASCII character classes, instances of the classes [\w], [\s] and [\d]
    of the [re] module on ASCII text. *)
Definition ascii_is_digit (c : char) : bool := bool_decide (48 ≤ c ≤ 57)%N.
Definition ascii_is_space (c : char) : bool :=
  bool_decide (9 ≤ c ≤ 13 ∨ 28 ≤ c ≤ 32)%N.
Definition ascii_is_word (c : char) : bool :=
  ascii_is_digit c || bool_decide (65 ≤ c ≤ 90 ∨ 97 ≤ c ≤ 122 ∨ c = 95)%N.

End PyStr.

Import PyStr.

(** ** utils/text_preprocessing.py: [TextPreprocessor] *)
Module TextPreprocessor.

Section Preprocessor.

(** The character classes of Python's [re] for [str] patterns: [\w], [\s] and
    [\d] are Unicode tables of the interpreter. *)
Variable is_word is_space is_digit : char → bool.

(** [Okt.morphs(text, norm=True, stem=True)]: the morphological tokenizer of
    konlpy, an external library. *)
Variable morphs : str → list str.

(** [str.lower], a Unicode table of the interpreter. *)
Variable lower : str → str.

(** [re.sub(r'[^\w\s]', ' ', text)]: every character that is neither a word
    character nor whitespace becomes one space. *)
Definition sub_non_word_space (text : str) : str :=
  (λ c, if is_word c || is_space c then c else space) <$> text.

(** [re.sub(r'\d+', '', text)]: every run of digits is deleted. *)
Definition sub_digits (text : str) : str :=
  List.filter (λ c, negb (is_digit c)) text.

(** [re.sub(r'\s+', ' ', text)]: every maximal run of whitespace becomes one
    space (the space is emitted at the last character of the run). *)
Fixpoint sub_spaces (text : str) : str :=
  match text with
  | [] => []
  | c :: rest =>
      if is_space c then
        match rest with
        | [] => [space]
        | c' :: _ => if is_space c' then sub_spaces rest else space :: sub_spaces rest
        end
      else c :: sub_spaces rest
  end.

Fixpoint lstrip (text : str) : str :=
  match text with
  | [] => []
  | c :: rest => if is_space c then lstrip rest else text
  end.

Definition rstrip (text : str) : str := reverse (lstrip (reverse text)).

(** [text.strip()]. *)
Definition strip (text : str) : str := rstrip (lstrip text).

(** [clean_text(self, text)]. The argument is [None] when [pd.isna(text)]
    holds and [Some s] for the string [s]. *)
Definition clean_text (text : option str) : str :=
  match text with
  | None => []
  | Some text =>
      let text := sub_non_word_space text in
      let text := sub_digits text in
      strip (sub_spaces text)
  end.

(** The builtin stopword set of [extract_keywords]. *)
Definition builtin_stopwords : gset str :=
  list_to_set
    [ [51060%N] (* U+C774 *); [44536%N] (* U+ADF8 *); [51200%N] (* U+C800 *);
      [44163%N] (* U+AC83 *); [49688%N] (* U+C218 *); [51080%N] (* U+C788 *);
      [54616%N] (* U+D558 *); [46104%N] (* U+B418 *); [44057%N] (* U+AC19 *);
      [46308%N] (* U+B4E4 *); [47566%N] (* U+B9CE *); [51339%N] (* U+C88B *);
      [51096%N] (* U+C798 *);
      [47588%N; 50864%N] (* U+B9E4 U+C6B0 *); [51221%N; 47568%N] (* U+C815 U+B9D0 *);
      [45320%N; 47924%N] (* U+B108 U+BB34 *); [50500%N; 51452%N] (* U+C544 U+C8FC *);
      [50756%N; 51204%N] (* U+C644 U+C804 *); [51652%N; 51676%N] (* U+C9C4 U+C9DC *);
      [54620%N; 48264%N] (* U+D55C U+BC88 *); [51312%N; 44552%N] (* U+C870 U+AE08 *) ].

(** [stopwords] after [if exclude_words: stopwords.update(exclude_words)]. *)
Definition stopwords_with (exclude_words : option (list str)) : gset str :=
  match exclude_words with
  | Some ((_ :: _) as ex) => builtin_stopwords ∪ list_to_set ex
  | _ => builtin_stopwords
  end.

(** [extract_keywords(self, text, exclude_words=None, include_words=None)]. *)
Definition extract_keywords (text : str)
    (exclude_words include_words : option (list str)) : list str :=
  if decide (text = []) then []
  else
    let morphs := morphs text in
    let stopwords := stopwords_with exclude_words in
    let keywords :=
      filter (λ word, (2 ≤ length word)%nat ∧ word ∉ stopwords) morphs in
    match include_words with
    | Some ((_ :: _) as inc) =>
        let original_text := lower text in
        if existsb (λ inc, is_substring (lower inc) original_text) inc
        then keywords
        else []
    | _ => keywords
    end.

(** [pair = tuple(sorted([word1, word2]))]. *)
Definition sorted_pair (word1 word2 : str) : str * str :=
  if str_leb word1 word2 then (word1, word2) else (word2, word1).

(** [cooccurrence[pair] = cooccurrence.get(pair, 0) + 1]. *)
Definition count_pair (cooccurrence : gmap (str * str) Z) (word1 word2 : str)
    : gmap (str * str) Z :=
  let pair := sorted_pair word1 word2 in
  <[pair := default 0 (cooccurrence !! pair) + 1]> cooccurrence.

(** [range(lo, hi)]. *)
Definition range (lo hi : Z) : list Z := seqZ lo (hi - lo).

(** The inner loop of [get_cooccurrence_matrix] at position [i]. The index
    [j] stays inside [keywords], so [keywords[j]] never fails. *)
Definition window_loop (keywords : list str) (window_size : Z) (i : Z)
    (word1 : str) (cooccurrence : gmap (str * str) Z) : gmap (str * str) Z :=
  foldl
    (λ cooccurrence j,
       if decide (i ≠ j) then
         match keywords !! Z.to_nat j with
         | Some word2 => count_pair cooccurrence word1 word2
         | None => cooccurrence
         end
       else cooccurrence)
    cooccurrence
    (range (Z.max 0 (i - window_size))
           (Z.min (Z.of_nat (length keywords)) (i + window_size + 1))).

(** [for i, word1 in enumerate(keywords): ...]. *)
Definition keywords_loop (keywords : list str) (window_size : Z)
    (cooccurrence : gmap (str * str) Z) : gmap (str * str) Z :=
  foldl
    (λ cooccurrence '(i, word1),
       window_loop keywords window_size i word1 cooccurrence)
    cooccurrence
    (zip (seqZ 0 (Z.of_nat (length keywords))) keywords).

(** [get_cooccurrence_matrix(self, texts, exclude_words=None,
    include_words=None, window_size=5)]. *)
Definition get_cooccurrence_matrix (texts : list str)
    (exclude_words include_words : option (list str)) (window_size : Z)
    : gmap (str * str) Z :=
  foldl
    (λ cooccurrence text,
       let keywords := extract_keywords text exclude_words include_words in
       keywords_loop keywords window_size cooccurrence)
    ∅ texts.

End Preprocessor.

End TextPreprocessor.

Import TextPreprocessor.

(** ** networkx, as far as the analyzer uses it

    [nx.Graph] keeps the adjacency as a dict of dicts: [G._adj[u][v]] is the
    data of the edge between [u] and [v], here its [weight]. The nodes are the
    keys of [G._adj]. *)
Module nx.

Abbreviation Graph := (gmap str (gmap str Z)) (only parsing).

(** [nx.Graph()]. *)
Definition empty_graph : Graph := ∅.

(** [G.nodes()]. *)
Definition nodes (G : Graph) : list str := (map_to_list G).*1.

(** [len(G)], [len(G.nodes())]. *)
Definition number_of_nodes (G : Graph) : nat := length (nodes G).

(** [if u not in self._node: self._adj[u] = {}]. *)
Definition add_node (u : str) (G : Graph) : Graph :=
  match G !! u with
  | Some _ => G
  | None => <[u := ∅]> G
  end.

(** [G.add_edge(u, v, weight=w)]: both ends become nodes, then
    [_adj[u][v]] and [_adj[v][u]] receive the edge data. *)
Definition add_edge (u v : str) (w : Z) (G : Graph) : Graph :=
  let G := add_node v (add_node u G) in
  let G := alter (insert v w) u G in
  alter (insert u w) v G.

(** [G.has_edge(u, v)]. *)
Definition has_edge (G : Graph) (u v : str) : bool :=
  match G !! u with
  | Some nbrs => bool_decide (is_Some (nbrs !! v))
  | None => false
  end.

(** [G.degree(n)]: [len(nbrs) + (n in nbrs)], a self-loop counts twice. *)
Definition degree (G : Graph) (n : str) : nat :=
  match G !! n with
  | Some nbrs => size nbrs + (if decide (is_Some (nbrs !! n)) then 1 else 0)
  | None => 0
  end.

(** [G.number_of_edges()], that is [G.size()]: half the sum of the degrees. *)
Definition number_of_edges (G : Graph) : nat :=
  (sum_list ((λ n, degree G n) <$> nodes G) / 2)%nat.

(** [nx.degree_centrality(G)], with the float scores read as rationals. *)
Definition degree_centrality (G : Graph) : list (str * Q) :=
  if decide (number_of_nodes G ≤ 1)%nat then
    (λ n, (n, 1%Q)) <$> nodes G
  else
    let s := (1 / (inject_Z (Z.of_nat (number_of_nodes G)) - 1))%Q in
    (λ n, (n, (inject_Z (Z.of_nat (degree G n)) * s)%Q)) <$> nodes G.

End nx.

(** ** pandas, as far as the analyzer uses it *)
Module pd.

(** One row of the centrality table. *)
Record Row := {
  keyword : str;
  degree_centrality : Q;
  betweenness_centrality : Q;
  closeness_centrality : Q;
  eigenvector_centrality : Q
}.

(** A table is the list of its rows; [pd.DataFrame()] has none. *)
Abbreviation DataFrame := (list Row) (only parsing).

(** [pd.DataFrame({...})] from five columns: a [ValueError] ([None]) unless
    all columns have the same length. *)
Definition of_columns (k : list str) (d b c e : list Q) : option DataFrame :=
  if decide (length d = length k ∧ length b = length k ∧
             length c = length k ∧ length e = length k)
  then Some ((λ '(k, d, b, c, e),
               {| keyword := k; degree_centrality := d;
                  betweenness_centrality := b; closeness_centrality := c;
                  eigenvector_centrality := e |})
             <$> zip (zip (zip (zip k d) b) c) e)
  else None.

(** Rounding to the nearest integer, ties to the even one. *)
Definition round_half_even (q : Q) : Z :=
  let f := Qfloor q in
  match (q - inject_Z f ?= 1 # 2)%Q with
  | Lt => f
  | Gt => f + 1
  | Eq => if Z.even f then f else f + 1
  end.

(** Rounding of one score to four decimals. *)
Definition round4 (q : Q) : Q := (inject_Z (round_half_even (q * 10000)) / 10000)%Q.

(** [df.round(4)]: every numeric column is rounded. *)
Definition round (df : DataFrame) : DataFrame :=
  (λ r, {| keyword := keyword r;
           degree_centrality := round4 (degree_centrality r);
           betweenness_centrality := round4 (betweenness_centrality r);
           closeness_centrality := round4 (closeness_centrality r);
           eigenvector_centrality := round4 (eigenvector_centrality r) |}) <$> df.

(** The order of [sort_values('degree_centrality', ascending=False)]. *)
Definition degree_ge (r1 r2 : Row) : Prop :=
  Qle_bool (degree_centrality r2) (degree_centrality r1) = true.

#[global] Instance degree_ge_dec : RelDecision degree_ge.
Proof. intros r1 r2. unfold degree_ge. apply _. Defined.

(** [df.sort_values('degree_centrality', ascending=False)]. The order of
    rows with equal keys is left open by pandas; a merge sort is one such
    order. *)
Definition sort_values (df : DataFrame) : DataFrame := merge_sort degree_ge df.

End pd.

(** ** utils/network_analysis.py: [NetworkAnalyzer] *)
Module NetworkAnalyzer.

(** [create_network(self, cooccurrence_dict, min_frequency=2)]; [self.graph]
    is the returned graph. The dict is a finite map: the order in which its
    items are visited does not change which nodes and edges the graph has. *)
Definition create_network (cooccurrence_dict : gmap (str * str) Z)
    (min_frequency : Z) : nx.Graph :=
  map_fold
    (λ '(word1, word2) freq graph,
       if decide (min_frequency ≤ freq)
       then nx.add_edge word1 word2 freq graph
       else graph)
    nx.empty_graph cooccurrence_dict.

Section Centrality.

(** [nx.betweenness_centrality] and [nx.closeness_centrality]: the library
    returns a dict with one score for every node of the graph. *)
Variable betweenness_centrality closeness_centrality : nx.Graph → str → Q.

(** [nx.eigenvector_centrality(G, max_iter=1000)]: [None] when the call
    raises (the power iteration did not converge), else one score for every
    node. *)
Variable eigenvector_centrality : nx.Graph → option (str → Q).

(** A dict with one entry per node, in node order. *)
Definition node_dict (G : nx.Graph) (f : str → Q) : list (str * Q) :=
  (λ n, (n, f n)) <$> nx.nodes G.

(** [calculate_centrality_metrics(self)] on [self.graph]; [None] would be an
    exception leaving the method. *)
Definition calculate_centrality_metrics (graph : option nx.Graph)
    : option pd.DataFrame :=
  match graph with
  | None => Some []
  | Some graph =>
      if decide (nx.number_of_nodes graph = 0)%nat then Some []
      else
        let degree_cent := nx.degree_centrality graph in
        let betweenness_cent := node_dict graph (betweenness_centrality graph) in
        let closeness_cent := node_dict graph (closeness_centrality graph) in
        let eigenvector_cent :=
          match eigenvector_centrality graph with
          | Some scores => node_dict graph scores
          | None => (λ node, (node, 0%Q)) <$> nx.nodes graph
          end in
        centrality_df ← pd.of_columns degree_cent.*1 degree_cent.*2
                          betweenness_cent.*2 closeness_cent.*2
                          eigenvector_cent.*2;
        Some (pd.sort_values (pd.round centrality_df))
  end.

End Centrality.

End NetworkAnalyzer.

(** ** Exceptions

    A call that may raise returns [Ok] with its value or [Raise] with the
    exception. *)
Module PyExn.

Inductive error := NotFittedError | AttributeError | IndexError.

Inductive result (A : Type) :=
  | Ok (a : A)
  | Raise (e : error).
Arguments Ok {A} a.
Arguments Raise {A} e.

Definition bind {A B} (r : result A) (k : A → result B) : result B :=
  match r with
  | Ok a => k a
  | Raise e => Raise e
  end.

(** [[f(x) for x in xs]] where [f] may raise. *)
Fixpoint traverse {A B} (f : A → result B) (xs : list A) : result (list B) :=
  match xs with
  | [] => Ok []
  | x :: xs' => bind (f x) (λ y, bind (traverse f xs') (λ ys, Ok (y :: ys)))
  end.

End PyExn.

Import PyExn.

(** ** scikit-learn, as far as the topic modeler uses it

    The two estimators are objects that a fit changes in place: the
    vectorizer gains its vocabulary, the topic model its components. *)
Module sklearn.

(** [CountVectorizer(max_features=.., min_df=2, max_df=0.8,
    token_pattern=r'\b\w{2,}\b')]; [vocabulary_] is [None] until fitted and
    then holds the feature names in column order. *)
Record CountVectorizer := {
  max_features : Z;
  vocabulary_ : option (list str)
}.

(** [LatentDirichletAllocation(n_components=.., random_state=42,
    max_iter=20)]; [components_] is [None] until fitted. *)
Record LatentDirichletAllocation := {
  n_components : Z;
  components_ : option (list (list Q))
}.

(** [vectorizer.get_feature_names_out()]. *)
Definition get_feature_names_out (v : CountVectorizer) : result (list str) :=
  match vocabulary_ v with
  | Some names => Ok names
  | None => Raise NotFittedError
  end.

(** [lda_model.components_]. *)
Definition get_components (m : LatentDirichletAllocation) : result (list (list Q)) :=
  match components_ m with
  | Some c => Ok c
  | None => Raise AttributeError
  end.

End sklearn.

(** ** numpy, as far as the topic modeler uses it *)
Module np.

Definition value_le (a b : nat * Q) : Prop := Qle_bool a.2 b.2 = true.

#[global] Instance value_le_dec : RelDecision value_le.
Proof. intros a b. unfold value_le. apply _. Defined.

(** [topic.argsort()]: the indices in ascending order of their values. *)
Definition argsort (topic : list Q) : list nat :=
  (merge_sort value_le (zip (seq 0 (length topic)) topic)).*1.

(** [l[-n:]]. *)
Definition last_n {A} (n : Z) (l : list A) : list A :=
  let len := Z.of_nat (length l) in
  let start := if decide (- n < 0) then Z.max 0 (len - n) else Z.min len (- n) in
  drop (Z.to_nat start) l.

(** [doc_term_matrix.sum()]. *)
Definition sum (m : list (list Z)) : Z := foldr Z.add 0 (foldr Z.add 0 <$> m).

End np.

(** ** utils/topic_modeling.py: [TopicModeler] *)
Module TopicModeler.

(** The attributes of a [TopicModeler]. *)
Record t := {
  lda_model : option sklearn.LatentDirichletAllocation;
  vectorizer : option sklearn.CountVectorizer;
  doc_topic_matrix : option (list (list Q))
}.

(** [__init__]. *)
Definition init : t :=
  {| lda_model := None; vectorizer := None; doc_topic_matrix := None |}.

(** One row of the table of [get_topics_dataframe]; [topic] is the number in
    the label of the topic. *)
Record TopicRow := {
  topic : Z;
  keyword : str;
  weight : Q
}.

(** [CountVectorizer(max_features=max_features, min_df=2, max_df=0.8,
    token_pattern=r'\b\w{2,}\b')]: a new vectorizer, not fitted. *)
Definition new_vectorizer (max_features : Z) : sklearn.CountVectorizer :=
  {| sklearn.max_features := max_features; sklearn.vocabulary_ := None |}.

(** [LatentDirichletAllocation(n_components=n_topics, random_state=42,
    max_iter=20)]: a new topic model, not fitted. *)
Definition new_model (n_topics : Z) : sklearn.LatentDirichletAllocation :=
  {| sklearn.n_components := n_topics; sklearn.components_ := None |}.

Section Modeler.

Variable is_space : char → bool.

(** [vectorizer.fit_transform(texts)]: the vectorizer after the call, and
    the document-term matrix, or [None] when the call raises. *)
Variable fit_transform_counts :
  sklearn.CountVectorizer → list str → sklearn.CountVectorizer * option (list (list Z)).

(** [lda_model.fit_transform(doc_term_matrix)]: the model after the call, and
    the document-topic matrix, or [None] when the call raises. *)
Variable fit_transform_lda :
  sklearn.LatentDirichletAllocation → list (list Z) →
  sklearn.LatentDirichletAllocation * option (list (list Q)).

(** [not texts or all(not text.strip() for text in texts)]. *)
Definition no_text (texts : list str) : bool :=
  bool_decide (texts = []) || forallb (λ text, bool_decide (strip is_space text = [])) texts.

(** [fit_lda_model(self, texts, n_topics=5, max_features=100)]: the returned
    value and the modeler after the call. *)
Definition fit_lda_model (texts : list str) (n_topics max_features : Z) (self : t)
    : option sklearn.LatentDirichletAllocation * t :=
  if no_text texts then (None, self)
  else
    let '(fitted_vectorizer, doc_term_matrix) :=
      fit_transform_counts (new_vectorizer max_features) texts in
    let self :=
      {| lda_model := lda_model self; vectorizer := Some fitted_vectorizer;
         doc_topic_matrix := doc_topic_matrix self |} in
    match doc_term_matrix with
    | None => (None, self)
    | Some doc_term_matrix =>
        if decide (np.sum doc_term_matrix = 0) then (None, self)
        else
          let '(fitted_model, matrix) :=
            fit_transform_lda (new_model n_topics) doc_term_matrix in
          match matrix with
          | None =>
              (None,
               {| lda_model := Some fitted_model; vectorizer := vectorizer self;
                  doc_topic_matrix := doc_topic_matrix self |})
          | Some matrix =>
              (Some fitted_model,
               {| lda_model := Some fitted_model; vectorizer := vectorizer self;
                  doc_topic_matrix := Some matrix |})
          end
    end.

End Modeler.

(** [feature_names[i]], [topic[i]]. *)
Definition index {A} (l : list A) (i : nat) : result A :=
  match l !! i with
  | Some x => Ok x
  | None => Raise IndexError
  end.

(** [topic.argsort()[-n:][::-1]]. *)
Definition top_words_idx (n : Z) (topic_weights : list Q) : list nat :=
  reverse (np.last_n n (np.argsort topic_weights)).

(** The loop of [get_topics_dataframe]: the rows of all topics, read from
    the components of a model against the feature names of a vectorizer. *)
Definition topics_rows (feature_names : list str) (components : list (list Q))
    (n_words : Z) : result (list TopicRow) :=
  bind
    (traverse
       (λ '(topic_idx, topic_weights),
          let idx := top_words_idx n_words topic_weights in
          bind (traverse (index feature_names) idx) (λ top_words,
          bind (traverse (index topic_weights) idx) (λ top_weights,
          Ok ((λ '(word, w),
                 {| topic := topic_idx + 1; keyword := word; weight := pd.round4 w |})
              <$> zip top_words top_weights))))
       (zip (seqZ 0 (Z.of_nat (length components))) components))
    (λ rows, Ok (concat rows)).

(** [get_topics_dataframe(self, n_words=10)]. *)
Definition get_topics_dataframe (n_words : Z) (self : t) : result (list TopicRow) :=
  match lda_model self, vectorizer self with
  | Some model, Some vec =>
      bind (sklearn.get_feature_names_out vec) (λ feature_names,
      bind (sklearn.get_components model) (λ components,
      topics_rows feature_names components n_words))
  | _, _ => Ok []
  end.

(** The loop of [get_topic_keywords_summary]: the number of each topic with
    its five top words joined by a comma and a space. *)
Definition topics_summary (feature_names : list str) (components : list (list Q))
    : result (list (Z * str)) :=
  traverse
    (λ '(topic_idx, topic_weights),
       let idx := top_words_idx 5 topic_weights in
       bind (traverse (index feature_names) idx) (λ top_words,
       Ok (topic_idx + 1, join (py ", ") top_words)))
    (zip (seqZ 0 (Z.of_nat (length components))) components).

(** [get_topic_keywords_summary(self)]. *)
Definition get_topic_keywords_summary (self : t) : result (list (Z * str)) :=
  match lda_model self, vectorizer self with
  | Some model, Some vec =>
      bind (sklearn.get_feature_names_out vec) (λ feature_names,
      bind (sklearn.get_components model) (λ components,
      topics_summary feature_names components))
  | _, _ => Ok []
  end.

End TopicModeler.

(** ** app.py: the analysis driver *)
Module App.

(** The part of [st.session_state] the analysis works on: the graph of the
    network analyzer and the topic modeler. *)
Record session_state := {
  network_analyzer : option nx.Graph;
  topic_modeler : TopicModeler.t
}.

(** What [perform_realtime_analysis] returns. *)
Record analysis := {
  network_graph : option nx.Graph;
  filtered_texts : option (list str);
  total_texts : option nat;
  topic_model : option sklearn.LatentDirichletAllocation
}.

Section Analysis.

Variable is_word is_space is_digit : char → bool.
Variable morphs : str → list str.
Variable lower : str → str.
Variable fit_transform_counts :
  sklearn.CountVectorizer → list str → sklearn.CountVectorizer * option (list (list Z)).
Variable fit_transform_lda :
  sklearn.LatentDirichletAllocation → list (list Z) →
  sklearn.LatentDirichletAllocation * option (list (list Q)).

(** The keyword lists of the sidebar:
    [[word.strip() for word in keywords.split(',') if word.strip()]
      if keywords else None]. *)
Definition parse_keywords (keywords : str) : option (list str) :=
  if decide (keywords = []) then None
  else Some (filter (λ word, word ≠ []) (strip is_space <$> split_char comma keywords)).

(** The texts handed to the topic modeler: the keywords of every text that
    has any, joined by spaces. *)
Definition filter_texts (texts : list str) (exclude_words include_words : option (list str))
    : list str :=
  omap
    (λ text,
       let keywords := extract_keywords morphs lower text exclude_words include_words in
       match keywords with
       | [] => None
       | _ :: _ => Some (join (py " ") keywords)
       end)
    texts.

(** [perform_realtime_analysis()], with the sidebar settings and the
    [Context] column as arguments ([None] is a missing value of the column):
    the returned tuple and the session state after the call. *)
Definition perform_realtime_analysis (data : list (option str))
    (exclude_words include_words : option (list str)) (n_topics min_frequency : Z)
    (st : session_state) : analysis * session_state :=
  let texts := clean_text is_word is_space is_digit <$> data in
  let texts := List.filter (λ text, negb (bool_decide (strip is_space text = []))) texts in
  match texts with
  | [] =>
      ({| network_graph := None; filtered_texts := None; total_texts := None;
          topic_model := None |}, st)
  | _ :: _ =>
      let cooccurrence :=
        get_cooccurrence_matrix morphs lower texts exclude_words include_words 5 in
      let network_graph := NetworkAnalyzer.create_network cooccurrence min_frequency in
      let filtered_texts := filter_texts texts exclude_words include_words in
      let '(topic_model, modeler) :=
        if decide (5 ≤ length filtered_texts)%nat
        then TopicModeler.fit_lda_model is_space fit_transform_counts fit_transform_lda
               filtered_texts n_topics 100 (topic_modeler st)
        else (None, topic_modeler st) in
      ({| network_graph := Some network_graph; filtered_texts := Some filtered_texts;
          total_texts := Some (length texts); topic_model := topic_model |},
       {| network_analyzer := Some network_graph; topic_modeler := modeler |})
  end.

End Analysis.

End App.

(** * Vocabulary of the properties *)

(** ** Cleaned text *)
Section CleanVocabulary.

Variable is_word is_space is_digit : char → bool.

(** No whitespace character has a whitespace neighbour, and every whitespace
    character is the plain space. *)
Fixpoint single_spaced (text : str) : Prop :=
  match text with
  | [] => True
  | c :: rest =>
      (is_space c = true →
       c = space ∧ match rest with [] => True | c' :: _ => is_space c' = false end)
      ∧ single_spaced rest
  end.

(** What the three substitutions leave: word or whitespace characters that
    are no digits. *)
Definition kept (c : char) : Prop := is_word c || is_space c = true ∧ is_digit c = false.

End CleanVocabulary.

(** ** Graphs and pair counts *)

(** The neighbours of a node with their weights; none for a non-node. *)
Definition neighbors (G : gmap str (gmap str Z)) (u : str) : gmap str Z :=
  default ∅ (G !! u).

(** The pair [u], [v] is a key, in either order, with a count that reaches
    the threshold. *)
Definition frequent (m : gmap (str * str) Z) (t : Z) (u v : str) : Prop :=
  ∃ f, t ≤ f ∧ (m !! (u, v) = Some f ∨ m !! (v, u) = Some f).

(** Every count of the map is positive. *)
Definition all_positive (cooccurrence : gmap (str * str) Z) : Prop :=
  ∀ pair c, cooccurrence !! pair = Some c → 0 < c.

(** The pair is a key of the map, and all counts are positive. *)
Definition counted (pair : str * str) (cooccurrence : gmap (str * str) Z) : Prop :=
  all_positive cooccurrence ∧ is_Some (cooccurrence !! pair).

(** ** Rows of the centrality table *)
Section CentralityVocabulary.

Variable betweenness_centrality closeness_centrality : gmap str (gmap str Z) → str → Q.
Variable eigenvector_centrality : gmap str (gmap str Z) → option (str → Q).

(** The degree centrality of one node. *)
Definition degree_score (G : gmap str (gmap str Z)) (n : str) : Q :=
  if decide (nx.number_of_nodes G ≤ 1)%nat then 1%Q
  else (inject_Z (Z.of_nat (nx.degree G n))
        * (1 / (inject_Z (Z.of_nat (nx.number_of_nodes G)) - 1)))%Q.

(** The eigenvector score of one node, 0 when the library call failed. *)
Definition eigenvector_score (G : gmap str (gmap str Z)) (n : str) : Q :=
  match eigenvector_centrality G with
  | Some scores => scores n
  | None => 0%Q
  end.

(** The row of one node, with its scores rounded. *)
Definition rounded_row (G : gmap str (gmap str Z)) (n : str) : pd.Row :=
  {| pd.keyword := n;
     pd.degree_centrality := pd.round4 (degree_score G n);
     pd.betweenness_centrality := pd.round4 (betweenness_centrality G n);
     pd.closeness_centrality := pd.round4 (closeness_centrality G n);
     pd.eigenvector_centrality := pd.round4 (eigenvector_score G n) |}.

End CentralityVocabulary.

(** ** Failed fits and stale reads *)

(** The call failed in the vectorization: the fit of the vectorizer raised,
    or its matrix has the total 0. *)
Definition vectorization_fails
    (fit_transform_counts :
       sklearn.CountVectorizer → list str →
       sklearn.CountVectorizer * option (list (list Z)))
    (texts : list str) (max_features : Z) : Prop :=
  (fit_transform_counts (TopicModeler.new_vectorizer max_features) texts).2 = None ∨
  ∃ doc_term_matrix,
    (fit_transform_counts (TopicModeler.new_vectorizer max_features) texts).2
    = Some doc_term_matrix ∧
    np.sum doc_term_matrix = 0.

(** What the two queries return when a model and a vectorizer are in place:
    the components of the model read against the feature names of the
    vectorizer. *)
Definition read_topics (vec : sklearn.CountVectorizer)
    (model : sklearn.LatentDirichletAllocation) (n_words : Z)
    : result (list TopicModeler.TopicRow) :=
  bind (sklearn.get_feature_names_out vec) (λ feature_names,
  bind (sklearn.get_components model) (λ components,
  TopicModeler.topics_rows feature_names components n_words)).

Definition read_summary (vec : sklearn.CountVectorizer)
    (model : sklearn.LatentDirichletAllocation) : result (list (Z * str)) :=
  bind (sklearn.get_feature_names_out vec) (λ feature_names,
  bind (sklearn.get_components model) (λ components,
  TopicModeler.topics_summary feature_names components)).

(** Whenever a call returns [None] after an earlier successful fit, the
    modeler still holds the earlier model and matrix beside the newly created
    vectorizer, and the queries read the one against the other. *)
Definition failed_fit_keeps_earlier_model : Prop :=
  ∀ (is_space : char → bool)
    (fit_transform_counts :
       sklearn.CountVectorizer → list str →
       sklearn.CountVectorizer * option (list (list Z)))
    (fit_transform_lda :
       sklearn.LatentDirichletAllocation → list (list Z) →
       sklearn.LatentDirichletAllocation * option (list (list Q)))
    (texts0 : list str) (n_topics0 max_features0 : Z) (self0 : TopicModeler.t)
    (earlier : sklearn.LatentDirichletAllocation) (self : TopicModeler.t)
    (texts : list str) (n_topics max_features : Z) (self' : TopicModeler.t),
    TopicModeler.fit_lda_model is_space fit_transform_counts fit_transform_lda
      texts0 n_topics0 max_features0 self0 = (Some earlier, self) →
    TopicModeler.fit_lda_model is_space fit_transform_counts fit_transform_lda
      texts n_topics max_features self = (None, self') →
    let fresh :=
      (fit_transform_counts (TopicModeler.new_vectorizer max_features) texts).1 in
    TopicModeler.lda_model self' = Some earlier ∧
    TopicModeler.doc_topic_matrix self' = TopicModeler.doc_topic_matrix self ∧
    TopicModeler.vectorizer self' = Some fresh ∧
    (∀ n_words, TopicModeler.get_topics_dataframe n_words self'
                = read_topics fresh earlier n_words) ∧
    TopicModeler.get_topic_keywords_summary self' = read_summary fresh earlier.

(** ** Keys and exact counts of the co-occurrence map *)

(** Every key of the map has the smaller word first, and both of its words
    have the property [S]. *)
Definition keys_in (S : str → Prop) (cooccurrence : gmap (str * str) Z) : Prop :=
  ∀ a b c, cooccurrence !! (a, b) = Some c → str_leb a b = true ∧ S a ∧ S b.

(** The sum of [f 0 .. f (n-1)]. *)
Fixpoint sumZ (f : nat → Z) (n : nat) : Z :=
  match n with
  | O => 0
  | S n' => sumZ f n' + f n'
  end.

(** 1 when the positions [i] and [j] of the keywords are distinct, at most
    the window apart, and hold the two words of the pair; else 0. *)
Definition pair_hit (keywords : list str) (window_size : Z) (pair : str * str)
    (i j : nat) : Z :=
  match keywords !! i, keywords !! j with
  | Some a, Some b =>
      if decide (i ≠ j ∧ Z.abs (Z.of_nat i - Z.of_nat j) ≤ window_size ∧
                 sorted_pair a b = pair)
      then 1 else 0
  | _, _ => 0
  end.

(** The number of position pairs [i < j] of one keyword sequence that hit
    the pair, and of all texts together. *)
Definition position_pairs (keywords : list str) (window_size : Z) (pair : str * str) : Z :=
  sumZ (λ j, sumZ (λ i, pair_hit keywords window_size pair i j) j) (length keywords).

Definition all_position_pairs (morphs : str → list str) (lower : str → str)
    (texts : list str) (exclude_words include_words : option (list str))
    (window_size : Z) (pair : str * str) : Z :=
  foldr
    (λ text total,
       position_pairs (extract_keywords morphs lower text exclude_words include_words)
         window_size pair + total)
    0 texts.

(** The count of a pair, 0 for a pair that is no key. *)
Definition count_of (cooccurrence : gmap (str * str) Z) (pair : str * str) : Z :=
  default 0 (cooccurrence !! pair).

(** ** Sequences of fits and the size of the topic table *)

(** The modeler after a sequence of calls of [fit_lda_model], each with its
    texts, topic count and feature cap. *)
Definition fit_all (is_space : char → bool)
    (fit_transform_counts :
       sklearn.CountVectorizer → list str →
       sklearn.CountVectorizer * option (list (list Z)))
    (fit_transform_lda :
       sklearn.LatentDirichletAllocation → list (list Z) →
       sklearn.LatentDirichletAllocation * option (list (list Q)))
    (calls : list (list str * Z * Z)) (self : TopicModeler.t) : TopicModeler.t :=
  foldl
    (λ self '(texts, n_topics, max_features),
       (TopicModeler.fit_lda_model is_space fit_transform_counts fit_transform_lda
          texts n_topics max_features self).2)
    self calls.


(** ** Sample inputs *)

(** The texts of the example of the specification, and their pair counts
    with whitespace tokenization and window 5. *)
Definition example_texts : list str :=
  [ py "service great clean"; py "service great clean"; py "service clean";
    py "room small clean"; py "view nice bed comfortable" ].

Definition example_cooccurrence : gmap (str * str) Z :=
  get_cooccurrence_matrix split_words ascii_lower example_texts None None 5.

(** A graph with a self-loop that the pipeline builds: the keywords
    [aa, aa, bb] with window 5 and threshold 2 give the edges aa-aa and
    aa-bb. *)
Definition loop_graph : gmap str (gmap str Z) :=
  NetworkAnalyzer.create_network
    (get_cooccurrence_matrix split_words ascii_lower [py "aa aa bb"] None None 5) 2.

(** ** The two library fits on ASCII text

    [CountVectorizer(max_features=.., min_df=2, max_df=0.8,
    token_pattern=r'\b\w{2,}\b').fit_transform(texts)], after
    [fit_transform], [_count_vocab] and [_limit_features] of
    sklearn/feature_extraction/text.py, on ASCII text. *)

(** The maximal runs of word characters of a text. *)
Fixpoint word_runs (cur : str) (s : str) : list str :=
  match s with
  | [] => if decide (cur = []) then [] else [cur]
  | c :: s' =>
      if ascii_is_word c then word_runs (cur ++ [c]) s'
      else if decide (cur = []) then word_runs [] s'
      else cur :: word_runs [] s'
  end.

(** The tokens of one document: the matches of [\b\w{2,}\b] in the text in
    lower case, which are the runs of two or more word characters. *)
Definition sample_tokens (text : str) : list str :=
  List.filter (λ w, bool_decide (2 ≤ length w)%nat) (word_runs [] (ascii_lower text)).

(** The terms of the documents, each once, in the order of [sorted]. *)
Fixpoint insert_term (w : str) (terms : list str) : list str :=
  match terms with
  | [] => [w]
  | x :: terms' =>
      if decide (w = x) then terms
      else if str_leb w x then w :: terms
      else x :: insert_term w terms'
  end.

Definition sorted_terms (docs : list (list str)) : list str :=
  foldr insert_term [] (concat docs).

(** The entry of the document-term matrix for a term and a document. *)
Definition term_count (w : str) (doc : list str) : Z :=
  Z.of_nat (length (List.filter (λ x, bool_decide (x = w)) doc)).

(** The number of documents that contain the term. *)
Definition document_frequency (w : str) (docs : list (list str)) : Z :=
  Z.of_nat (length (List.filter (λ doc, bool_decide (w ∈ doc)) docs)).

(** The number of occurrences of the term in all documents. *)
Definition total_count (w : str) (docs : list (list str)) : Z :=
  foldr (λ doc acc, term_count w doc + acc) 0 docs.

(** The terms by falling total count; among equal counts the earlier column
    comes first (in the library the order among equal counts is the one of
    numpy's [argsort]). *)
Fixpoint insert_by_count (docs : list (list str)) (w : str) (terms : list str) : list str :=
  match terms with
  | [] => [w]
  | x :: terms' =>
      if decide (total_count x docs ≤ total_count w docs) then w :: terms
      else x :: insert_by_count docs w terms'
  end.

(** The cap of [max_features]: when more terms are left than the cap, the
    [max_features] terms of the largest total count, in column order. *)
Definition limit_features (max_features : Z) (docs : list (list str)) (terms : list str)
    : list str :=
  if decide (Z.of_nat (length terms) ≤ max_features) then terms
  else
    let top := take (Z.to_nat max_features) (foldr (insert_by_count docs) [] terms) in
    List.filter (λ w, bool_decide (w ∈ top)) terms.

(** The fit of the vectorizer. It raises when [max_features] is below 1, when
    the documents have no token, when [max_df] of the documents is less than
    [min_df] (0.8 n < 2), and when no term is left after pruning; otherwise
    the vocabulary is the sorted terms that occur in at least 2 documents and
    in at most 0.8 n of them, capped by [max_features], and the matrix
    has one row per document with the counts of these terms. Only a
    successful fit sets [vocabulary_]. *)
Definition sample_fit_transform_counts (v : sklearn.CountVectorizer) (texts : list str)
    : sklearn.CountVectorizer * option (list (list Z)) :=
  let docs := sample_tokens <$> texts in
  let n := Z.of_nat (length texts) in
  let terms := sorted_terms docs in
  let pruned :=
    List.filter
      (λ w, bool_decide (2 ≤ document_frequency w docs ∧
                         5 * document_frequency w docs ≤ 4 * n)) terms in
  let vocabulary := limit_features (sklearn.max_features v) docs pruned in
  if decide (sklearn.max_features v ≤ 0 ∨ terms = [] ∨ 4 * n < 10 ∨ vocabulary = [])
  then (v, None)
  else
    ({| sklearn.max_features := sklearn.max_features v;
        sklearn.vocabulary_ := Some vocabulary |},
     Some ((λ doc, (λ w, term_count w doc) <$> vocabulary) <$> docs)).

(** [LatentDirichletAllocation(n_components=..).fit_transform(matrix)]: the
    fit raises on a topic count below 1. The numbers of a successful fit are
    the library's; this fit gives results of the library's shape: one row of
    components per topic with one weight per term (the first term the
    heaviest), and one row per document with one share per topic. *)
Definition sample_fit_transform_lda (model : sklearn.LatentDirichletAllocation)
    (doc_term_matrix : list (list Z))
    : sklearn.LatentDirichletAllocation * option (list (list Q)) :=
  if decide (sklearn.n_components model ≤ 0) then (model, None)
  else
    let n_topics := Z.to_nat (sklearn.n_components model) in
    let topic_row :=
      match length (default [] (head doc_term_matrix)) with
      | O => []
      | S n_rest => (3 # 2)%Q :: replicate n_rest (1 # 2)%Q
      end in
    ({| sklearn.n_components := sklearn.n_components model;
        sklearn.components_ := Some (replicate n_topics topic_row) |},
     Some ((λ _, replicate n_topics (1 # Z.to_pos (sklearn.n_components model))%Q)
           <$> doc_term_matrix)).

(** Five documents that the vectorizer accepts: room is in 3 of them, clean,
    view and nice in 2, staff in 1, so the vocabulary is clean, nice, room,
    view. *)
Definition sample_documents : list str :=
  [ py "room clean"; py "room clean"; py "room view"; py "view nice"; py "nice staff" ].

Definition sample_vocabulary : list str :=
  [ py "clean"; py "nice"; py "room"; py "view" ].

Definition sample_components : list (list Q) :=
  replicate 5 [(3 # 2)%Q; (1 # 2)%Q; (1 # 2)%Q; (1 # 2)%Q].

(** The modeler after a first fit on the sample documents with five topics. *)
Definition sample_model : sklearn.LatentDirichletAllocation :=
  {| sklearn.n_components := 5;
     sklearn.components_ := Some sample_components |}.

Definition sample_fitted : TopicModeler.t :=
  {| TopicModeler.lda_model := Some sample_model;
     TopicModeler.vectorizer :=
       Some {| sklearn.max_features := 100;
               sklearn.vocabulary_ := Some sample_vocabulary |};
     TopicModeler.doc_topic_matrix := Some (replicate 5 (replicate 5 (1 # 5)%Q)) |}.

(** * Properties *)

(** ** Strings *)
Section StrFacts.

Lemma is_prefix_spec (p s : str) :
  is_prefix p s = true ↔ ∃ post, s = p ++ post.
Proof.
  revert s. induction p as [|x p IH]; intros s; simpl.
  - split; [intros _; by exists s | done].
  - destruct s as [|y s]; simpl.
    + split; [done | intros [post Hpost]; discriminate].
    + rewrite andb_true_iff, bool_decide_eq_true, IH. split.
      * intros [-> [post ->]]. by exists post.
      * intros [post Hpost]. injection Hpost as -> ->. split; [done | by exists post].
Qed.

Lemma is_substring_spec (needle hay : str) :
  is_substring needle hay = true ↔ substring_of needle hay.
Proof.
  unfold substring_of. induction hay as [|c hay IH]; simpl.
  - rewrite orb_false_r, is_prefix_spec. split.
    + intros [post Hpost]. by exists [], post.
    + intros (pre & post & H). symmetry in H.
      apply app_eq_nil in H as [-> H]. apply app_eq_nil in H as [-> ->].
      by exists [].
  - rewrite orb_true_iff, is_prefix_spec, IH. split.
    + intros [[post Hpost] | (pre & post & ->)].
      * by exists [], post.
      * by exists (c :: pre), post.
    + intros (pre & post & H). destruct pre as [|c' pre]; simpl in H.
      * left. by exists post.
      * right. injection H as -> ->. by exists pre, post.
Qed.

End StrFacts.

(** ** Cleaning *)
Section CleanFacts.

Variable is_word is_space is_digit : char → bool.

#[local] Abbreviation lstrip := (lstrip is_space).
#[local] Abbreviation rstrip := (rstrip is_space).
#[local] Abbreviation strip := (strip is_space).
#[local] Abbreviation sub_spaces := (sub_spaces is_space).
#[local] Abbreviation sub_digits := (sub_digits is_digit).
#[local] Abbreviation sub_non_word_space := (sub_non_word_space is_word is_space).
#[local] Abbreviation single_spaced := (single_spaced is_space).
#[local] Abbreviation kept := (kept is_word is_space is_digit).

Lemma lstrip_suffix text : ∃ pre, text = pre ++ lstrip text.
Proof.
  induction text as [|c rest [pre IH]]; simpl.
  - by exists [].
  - destruct (is_space c).
    + exists (c :: pre). simpl. by f_equal.
    + by exists [].
Qed.

Lemma rstrip_prefix text : ∃ post, text = rstrip text ++ post.
Proof.
  unfold rstrip. destruct (lstrip_suffix (reverse text)) as [pre H].
  exists (reverse pre). rewrite <- reverse_app, <- H. by rewrite reverse_involutive.
Qed.

Lemma lstrip_fixed c rest : is_space c = false → lstrip (c :: rest) = c :: rest.
Proof. intros H. simpl. by rewrite H. Qed.

Lemma lstrip_head text :
  match lstrip text with [] => True | c :: _ => is_space c = false end.
Proof.
  induction text as [|c rest IH]; simpl; [done |].
  destruct (is_space c) eqn:E; [done | by rewrite E].
Qed.

Lemma lstrip_idemp text : lstrip (lstrip text) = lstrip text.
Proof.
  pose proof (lstrip_head text) as H. destruct (lstrip text) as [|c rest]; [done |].
  by apply lstrip_fixed.
Qed.

Lemma rstrip_idemp text : rstrip (rstrip text) = rstrip text.
Proof. unfold rstrip. by rewrite reverse_involutive, lstrip_idemp. Qed.

Lemma strip_idemp text : strip (strip text) = strip text.
Proof.
  unfold strip. set (u := lstrip text).
  assert (lstrip (rstrip u) = rstrip u) as ->; [| apply rstrip_idemp].
  pose proof (lstrip_head text) as Hhead. fold u in Hhead.
  destruct (rstrip_prefix u) as [post Hpost].
  destruct (rstrip u) as [|c rest]; [done |].
  rewrite Hpost in Hhead. simpl in Hhead. by apply lstrip_fixed.
Qed.

Lemma strip_infix text : ∃ pre post, text = pre ++ strip text ++ post.
Proof.
  unfold strip. destruct (lstrip_suffix text) as [pre Hpre].
  destruct (rstrip_prefix (lstrip text)) as [post Hpost].
  exists pre, post. by rewrite <- Hpost.
Qed.

Lemma single_spaced_app_r (a b : str) : single_spaced (a ++ b) → single_spaced b.
Proof. induction a as [|c a IH]; simpl; [done | intros [_ H]; auto]. Qed.

Lemma single_spaced_app_l (a b : str) : single_spaced (a ++ b) → single_spaced a.
Proof.
  induction a as [|c a IH]; simpl; [done |].
  intros [Hc H]. split; [| auto].
  intros Hs. destruct (Hc Hs) as [-> Hnext]. split; [done |].
  by destruct a.
Qed.

Lemma single_spaced_strip text : single_spaced text → single_spaced (strip text).
Proof.
  intros H. destruct (strip_infix text) as (pre & post & E). rewrite E in H.
  by eapply single_spaced_app_l, single_spaced_app_r.
Qed.

Hypothesis space_is_space : is_space space = true.
Hypothesis space_not_digit : is_digit space = false.

Lemma sub_spaces_single_spaced text : single_spaced (sub_spaces text).
Proof.
  induction text as [|c rest IH]; [done |].
  cbn [TextPreprocessor.sub_spaces].
  destruct (is_space c) eqn:Ec.
  - destruct rest as [|c2 rest]; [simpl; auto |].
    destruct (is_space c2) eqn:Ec2; [done |].
    split; [| done]. intros _. split; [done |].
    cbn [TextPreprocessor.sub_spaces]. by rewrite Ec2.
  - split; [congruence | done].
Qed.

Lemma single_spaced_fixed text : single_spaced text → sub_spaces text = text.
Proof.
  induction text as [|c rest IH]; [done |].
  intros [Hc Hrest]. cbn [TextPreprocessor.sub_spaces].
  rewrite (IH Hrest). destruct (is_space c) eqn:Ec; [| done].
  destruct (Hc eq_refl) as [-> Hnext].
  destruct rest as [|c2 rest]; [done |]. by rewrite Hnext.
Qed.

Lemma kept_fixed text :
  Forall kept text → sub_digits (sub_non_word_space text) = text.
Proof.
  induction 1 as [|c rest [Hw Hd] _ IH]; [done |].
  unfold TextPreprocessor.sub_digits, TextPreprocessor.sub_non_word_space in *.
  simpl. rewrite Hw, Hd. simpl. by f_equal.
Qed.

Lemma sub_digits_kept text : Forall kept (sub_digits (sub_non_word_space text)).
Proof.
  induction text as [|c rest IH]; [constructor |].
  unfold TextPreprocessor.sub_digits, TextPreprocessor.sub_non_word_space in *.
  simpl. destruct (is_word c || is_space c) eqn:Ew.
  - destruct (is_digit c) eqn:Ed; simpl; [done |]. constructor; [done | done].
  - rewrite space_not_digit. simpl. constructor; [| done].
    split; [| done]. by rewrite space_is_space, orb_true_r.
Qed.

Lemma sub_spaces_kept text : Forall kept text → Forall kept (sub_spaces text).
Proof.
  assert (kept space) as Hsp.
  { split; [| done]. by rewrite space_is_space, orb_true_r. }
  induction 1 as [|c rest Hc Hrest IH]; [constructor |].
  cbn [TextPreprocessor.sub_spaces].
  destruct (is_space c); [| by constructor].
  destruct rest as [|c2 rest]; [by constructor |].
  destruct (is_space c2); [done | by constructor].
Qed.

Lemma strip_kept text : Forall kept text → Forall kept (strip text).
Proof.
  intros H. destruct (strip_infix text) as (pre & post & E). rewrite E in H.
  apply Forall_app in H as [_ H]. by apply Forall_app in H as [H _].
Qed.

Lemma clean_text_idempotent_str (s : str) :
  clean_text is_word is_space is_digit (Some (clean_text is_word is_space is_digit (Some s)))
  = clean_text is_word is_space is_digit (Some s).
Proof.
  unfold clean_text.
  set (t := sub_spaces (sub_digits (sub_non_word_space s))).
  assert (Forall kept (strip t)) as Hk.
  { apply strip_kept, sub_spaces_kept, sub_digits_kept. }
  assert (single_spaced (strip t)) as Hs.
  { apply single_spaced_strip, sub_spaces_single_spaced. }
  rewrite (kept_fixed _ Hk), (single_spaced_fixed _ Hs). apply strip_idemp.
Qed.

End CleanFacts.

(** C8. For every input string [s], cleaning is idempotent:
    [clean_text(clean_text(s))] equals [clean_text(s)]. The character classes
    are those of the interpreter, of which only two facts are used: the plain
    space is whitespace and is not a digit. *)
Theorem clean_text_idempotent (is_word is_space is_digit : char → bool) (s : str) :
  is_space space = true →
  is_digit space = false →
  clean_text is_word is_space is_digit (Some (clean_text is_word is_space is_digit (Some s)))
  = clean_text is_word is_space is_digit (Some s).
Proof. intros Hs Hd. by apply clean_text_idempotent_str. Qed.

Lemma clean_text_idempotent_witness :
  clean_text ascii_is_word ascii_is_space ascii_is_digit
    (Some (clean_text ascii_is_word ascii_is_space ascii_is_digit
             (Some (py "  Room 101: clean,  quiet!! "))))
  = clean_text ascii_is_word ascii_is_space ascii_is_digit
      (Some (py "  Room 101: clean,  quiet!! ")).
Proof. apply (clean_text_idempotent ascii_is_word ascii_is_space ascii_is_digit); reflexivity. Defined.

(** ** Keyword extraction *)
Section ExtractFacts.

Variable morphs : str → list str.
Variable lower : str → str.

#[local] Abbreviation extract_keywords := (extract_keywords morphs lower).

(** The keywords are tokens of the text that passed the length and stopword
    filter. *)
Lemma extract_keywords_elem text exclude_words include_words word :
  word ∈ extract_keywords text exclude_words include_words →
  word ∈ morphs text ∧ (2 ≤ length word)%nat ∧ word ∉ stopwords_with exclude_words.
Proof.
  unfold TextPreprocessor.extract_keywords.
  destruct (decide (text = [])); [by intros ?%elem_of_nil |].
  assert (∀ w : str,
            w ∈ filter (λ word : str, (2 ≤ length word)%nat ∧
                                      word ∉ stopwords_with exclude_words) (morphs text) →
            w ∈ morphs text ∧ (2 ≤ length w)%nat ∧ w ∉ stopwords_with exclude_words) as Hf.
  { intros w Hw. apply list_elem_of_filter in Hw. tauto. }
  destruct include_words as [[|i inc]|]; [by apply Hf | | by apply Hf].
  destruct (existsb _ _); [by apply Hf | by intros ?%elem_of_nil].
Qed.

Lemma stopwords_with_exclude (E : list str) word :
  word ∈ E → word ∈ stopwords_with (Some E).
Proof.
  intros H. destruct E as [|e E]; [by apply elem_of_nil in H |].
  unfold stopwords_with. apply elem_of_union_r. by apply elem_of_list_to_set.
Qed.

(** The inclusion gate: with a non-empty inclusion list the result is the
    empty list unless some inclusion term occurs in the text. *)
Lemma extract_keywords_gate text exclude_words (I : list str) :
  I ≠ [] →
  existsb (λ inc, is_substring (lower inc) (lower text)) I = false →
  extract_keywords text exclude_words (Some I) = [].
Proof.
  intros HI Hex. unfold TextPreprocessor.extract_keywords.
  destruct (decide (text = [])); [done |].
  destruct I as [|i I]; [done |]. by rewrite Hex.
Qed.

Lemma existsb_substring text (I : list str) :
  existsb (λ inc, is_substring (lower inc) (lower text)) I = true ↔
  ∃ inc, inc ∈ I ∧ substring_of (lower inc) (lower text).
Proof.
  rewrite existsb_exists. split.
  - intros (inc & Hin & Hsub). exists inc.
    by rewrite list_elem_of_In, <- is_substring_spec.
  - intros (inc & Hin & Hsub). exists inc.
    by rewrite <- list_elem_of_In, is_substring_spec.
Qed.

End ExtractFacts.

(** C5. For every non-empty inclusion list [I] and every text: if
    [extract_keywords] returns a non-empty keyword list, the text contains a
    member of [I] as a case-insensitive substring (both sides lowered, as the
    code compares them); and when no member of [I] occurs so, the result is
    the empty list. *)
Theorem extract_keywords_inclusion_gate (morphs : str → list str) (lower : str → str)
    (text : str) (exclude_words : option (list str)) (I : list str) :
  I ≠ [] →
  (extract_keywords morphs lower text exclude_words (Some I) ≠ [] →
   ∃ inc, inc ∈ I ∧ substring_of (lower inc) (lower text)) ∧
  ((∀ inc, inc ∈ I → ¬ substring_of (lower inc) (lower text)) →
   extract_keywords morphs lower text exclude_words (Some I) = []).
Proof.
  intros HI.
  destruct (existsb (λ inc, is_substring (lower inc) (lower text)) I) eqn:Hex.
  - apply existsb_substring in Hex as (inc & Hin & Hsub). split.
    + intros _. by exists inc.
    + intros Hno. by destruct (Hno inc Hin).
  - split; intros H.
    + destruct H. by apply extract_keywords_gate.
    + by apply extract_keywords_gate.
Qed.

Lemma extract_keywords_inclusion_gate_witness :
  (extract_keywords split_words ascii_lower (py "room clean quiet") None
     (Some [py "Clean"; py "view"]) ≠ [] →
   ∃ inc, inc ∈ [py "Clean"; py "view"] ∧
          substring_of (ascii_lower inc) (ascii_lower (py "room clean quiet"))) ∧
  ((∀ inc, inc ∈ [py "Clean"; py "view"] →
           ¬ substring_of (ascii_lower inc) (ascii_lower (py "room clean quiet"))) →
   extract_keywords split_words ascii_lower (py "room clean quiet") None
     (Some [py "Clean"; py "view"]) = []).
Proof.
  apply (extract_keywords_inclusion_gate split_words ascii_lower
           (py "room clean quiet") None [py "Clean"; py "view"]).
  discriminate.
Defined.

(** C6. For every text and every exclusion list [E], no token of [E] is among
    the keywords that [extract_keywords] returns; and a text tokenized as
    [room, clean, service] gives [clean, service] under the exclusion list
    [room]. *)
Theorem extract_keywords_excludes (morphs : str → list str) (lower : str → str)
    (text : str) (E : list str) (include_words : option (list str)) :
  (∀ word, word ∈ E →
     word ∉ extract_keywords morphs lower text (Some E) include_words) ∧
  (text ≠ [] →
   morphs text = [py "room"; py "clean"; py "service"] →
   extract_keywords morphs lower text (Some [py "room"]) None
   = [py "clean"; py "service"]).
Proof.
  split.
  - intros word HE Hin.
    apply extract_keywords_elem in Hin as (_ & _ & Hnot).
    by apply Hnot, stopwords_with_exclude.
  - intros Hne Hm. unfold extract_keywords.
    destruct (decide (text = [])); [done |]. rewrite Hm. by vm_compute.
Qed.

Lemma extract_keywords_excludes_witness :
  (∀ word, word ∈ [py "room"] →
     word ∉ extract_keywords split_words ascii_lower (py "room clean service")
              (Some [py "room"]) None) ∧
  extract_keywords split_words ascii_lower (py "room clean service")
    (Some [py "room"]) None = [py "clean"; py "service"].
Proof.
  destruct (extract_keywords_excludes split_words ascii_lower
              (py "room clean service") [py "room"] None) as [H1 H2].
  split; [exact H1 |]. apply H2; [discriminate | reflexivity].
Defined.

(** ** Graphs *)
Section GraphFacts.

Implicit Types (G : gmap str (gmap str Z)) (u v a b : str) (w : Z).

Lemma neighbors_add_node G a u : neighbors (nx.add_node a G) u = neighbors G u.
Proof.
  unfold neighbors, nx.add_node. destruct (G !! a) eqn:Ea; [done |].
  destruct (decide (a = u)) as [<- | Hne].
  - by rewrite lookup_insert_eq, Ea.
  - by rewrite lookup_insert_ne.
Qed.

Lemma is_node_add_node G a u :
  is_Some (nx.add_node a G !! u) ↔ is_Some (G !! u) ∨ u = a.
Proof.
  unfold nx.add_node. destruct (G !! a) eqn:Ea.
  - split; [auto |]. intros [H | ->]; [done | by rewrite Ea].
  - destruct (decide (a = u)) as [<- | Hne].
    + rewrite lookup_insert_eq. split; [auto | by eauto].
    + rewrite lookup_insert_ne by done. split; [auto |]. intros [H | ->]; done.
Qed.

Lemma neighbors_alter G (f : gmap str Z → gmap str Z) a u :
  is_Some (G !! a) →
  neighbors (alter f a G) u = if decide (a = u) then f (neighbors G u) else neighbors G u.
Proof.
  intros [x Hx]. unfold neighbors. destruct (decide (a = u)) as [<- | Hne].
  - by rewrite lookup_alter_eq, Hx.
  - by rewrite lookup_alter_ne.
Qed.

Lemma is_node_alter G (f : gmap str Z → gmap str Z) a u :
  is_Some (alter f a G !! u) ↔ is_Some (G !! u).
Proof.
  destruct (decide (a = u)) as [<- | Hne].
  - rewrite lookup_alter_eq. by rewrite fmap_is_Some.
  - by rewrite lookup_alter_ne.
Qed.

Lemma is_node_add_edge G a b w u :
  is_Some (nx.add_edge a b w G !! u) ↔ is_Some (G !! u) ∨ u = a ∨ u = b.
Proof.
  unfold nx.add_edge. rewrite !is_node_alter, !is_node_add_node. tauto.
Qed.

Lemma neighbors_add_edge G a b w u :
  neighbors (nx.add_edge a b w G) u
  = (if decide (b = u) then <[a := w]> else id)
      ((if decide (a = u) then <[b := w]> else id) (neighbors G u)).
Proof.
  unfold nx.add_edge.
  rewrite neighbors_alter.
  2:{ rewrite is_node_alter, is_node_add_node. auto. }
  rewrite neighbors_alter.
  2:{ rewrite !is_node_add_node. auto. }
  rewrite !neighbors_add_node.
  by destruct (decide (b = u)), (decide (a = u)).
Qed.

Lemma adjacent_add_edge G a b w u v :
  is_Some (neighbors (nx.add_edge a b w G) u !! v) ↔
  is_Some (neighbors G u !! v) ∨ (u = a ∧ v = b) ∨ (u = b ∧ v = a).
Proof.
  rewrite neighbors_add_edge.
  assert (∀ (m : gmap str Z) k, is_Some (<[k := w]> m !! v) ↔ is_Some (m !! v) ∨ v = k)
    as Hins.
  { intros m k. destruct (decide (k = v)) as [-> | Hne].
    - rewrite lookup_insert_eq. split; [auto | by eauto].
    - rewrite lookup_insert_ne by done. split; [auto |]. intros [H | ->]; done. }
  destruct (decide (b = u)) as [Hb | Hb], (decide (a = u)) as [Ha | Ha]; simpl;
    rewrite ?Hins; intuition congruence.
Qed.

Lemma has_edge_neighbors G u v :
  nx.has_edge G u v = true ↔ is_Some (neighbors G u !! v).
Proof.
  unfold nx.has_edge, neighbors. destruct (G !! u) as [nbrs|]; simpl.
  - by rewrite bool_decide_eq_true.
  - rewrite lookup_empty. split; [done | by intros [? ?]].
Qed.

Lemma frequent_insert m t a b x u v :
  m !! (a, b) = None →
  frequent (<[(a, b) := x]> m) t u v ↔
  frequent m t u v ∨ (t ≤ x ∧ ((u = a ∧ v = b) ∨ (u = b ∧ v = a))).
Proof.
  intros Hnone. unfold frequent. split.
  - intros (f & Hf & [H | H]).
    + destruct (decide ((a, b) = (u, v))) as [E | Hne].
      * injection E as <- <-. rewrite lookup_insert_eq in H. injection H as ->. auto.
      * rewrite lookup_insert_ne in H by done. left. eauto.
    + destruct (decide ((a, b) = (v, u))) as [E | Hne].
      * injection E as <- <-. rewrite lookup_insert_eq in H. injection H as ->. auto.
      * rewrite lookup_insert_ne in H by done. left. eauto.
  - intros [(f & Hf & [H | H]) | [Hx [[-> ->] | [-> ->]]]].
    + exists f. split; [done |]. left. rewrite lookup_insert_ne; [done | congruence].
    + exists f. split; [done |]. right. rewrite lookup_insert_ne; [done | congruence].
    + exists x. split; [done |]. left. by rewrite lookup_insert_eq.
    + exists x. split; [done |]. right. by rewrite lookup_insert_eq.
Qed.

(** The graph of [create_network]: two nodes are adjacent exactly when their
    pair is frequent, and the nodes are the ends of the edges. *)
Lemma create_network_spec (m : gmap (str * str) Z) (t : Z) :
  let G := NetworkAnalyzer.create_network m t in
  (∀ u v, is_Some (neighbors G u !! v) ↔ frequent m t u v) ∧
  (∀ u, is_Some (G !! u) ↔ ∃ v, frequent m t u v).
Proof.
  unfold NetworkAnalyzer.create_network.
  apply (map_fold_weak_ind
           (λ G m, (∀ u v, is_Some (neighbors G u !! v) ↔ frequent m t u v) ∧
                   (∀ u, is_Some (G !! u) ↔ ∃ v, frequent m t u v))).
  - assert (∀ u v, ¬ frequent (∅ : gmap (str * str) Z) t u v) as Hno.
    { intros u v (f & _ & [H | H]); by apply lookup_empty_Some in H. }
    split.
    + intros u v. unfold neighbors, nx.empty_graph.
      rewrite lookup_empty. simpl. rewrite lookup_empty. split.
      * by intros [? ?].
      * intros H. by apply Hno in H.
    + intros u. unfold nx.empty_graph. rewrite lookup_empty. split.
      * by intros [? ?].
      * intros [v H]. by apply Hno in H.
  - intros [a b] x m' G Hnone [Hadj Hnode].
    assert (∀ u v, frequent (<[(a, b) := x]> m') t u v ↔
                   frequent m' t u v ∨ (t ≤ x ∧ ((u = a ∧ v = b) ∨ (u = b ∧ v = a))))
      as Hins by (intros; by apply frequent_insert).
    destruct (decide (t ≤ x)) as [Hx | Hx].
    + split.
      * intros u v. rewrite adjacent_add_edge, Hins, Hadj. tauto.
      * intros u. rewrite is_node_add_edge, Hnode. split.
        -- intros [[v Hv] | [-> | ->]].
           ++ exists v. apply Hins. auto.
           ++ exists b. apply Hins. auto.
           ++ exists a. apply Hins. auto.
        -- intros [v Hv]. apply Hins in Hv as [Hv | [_ [[-> _] | [-> _]]]]; eauto.
    + split.
      * intros u v. rewrite Hins, Hadj. tauto.
      * intros u. rewrite Hnode. split.
        -- intros [v Hv]. exists v. apply Hins. auto.
        -- intros [v Hv]. apply Hins in Hv as [Hv | [? _]]; [eauto | done].
Qed.

Lemma create_network_has_edge (m : gmap (str * str) Z) (t : Z) u v :
  nx.has_edge (NetworkAnalyzer.create_network m t) u v = true ↔ frequent m t u v.
Proof. rewrite has_edge_neighbors. apply create_network_spec. Qed.

Lemma frequent_mono (m : gmap (str * str) Z) (t1 t2 : Z) u v :
  t1 ≤ t2 → frequent m t2 u v → frequent m t1 u v.
Proof. intros Ht (f & Hf & H). exists f. split; [lia | done]. Qed.

Lemma elem_of_nodes G u : u ∈ nx.nodes G ↔ is_Some (G !! u).
Proof.
  unfold nx.nodes. rewrite list_elem_of_fmap. split.
  - intros ([k x] & -> & H). apply elem_of_map_to_list in H. by exists x.
  - intros [x Hx]. exists (u, x). split; [done |]. by apply elem_of_map_to_list.
Qed.

Lemma NoDup_nodes G : NoDup (nx.nodes G).
Proof. apply NoDup_fst_map_to_list. Qed.


Lemma degree_neighbors G u :
  nx.degree G u
  = (size (neighbors G u) + (if decide (is_Some (neighbors G u !! u)) then 1 else 0))%nat.
Proof.
  unfold nx.degree, neighbors. destruct (G !! u) as [nbrs|]; simpl; [done |].
  rewrite map_size_empty. destruct (decide _) as [[? H] | _]; [| done].
  by rewrite lookup_empty in H.
Qed.

Lemma sum_list_submseteq (f : str → nat) (l k : list str) :
  l ⊆+ k → (sum_list (f <$> l) ≤ sum_list (f <$> k))%nat.
Proof. induction 1; csimpl in *; lia. Qed.

End GraphFacts.

(** ** Thresholding *)
Section ThresholdFacts.

Variable m : gmap (str * str) Z.
Variable t1 t2 : Z.
Hypothesis threshold_le : t1 ≤ t2.

#[local] Abbreviation G1 := (NetworkAnalyzer.create_network m t1).
#[local] Abbreviation G2 := (NetworkAnalyzer.create_network m t2).

Lemma nodes_mono : nx.nodes G2 ⊆+ nx.nodes G1.
Proof.
  apply NoDup_submseteq; [apply NoDup_nodes |].
  intros u. rewrite !elem_of_nodes.
  destruct (create_network_spec m t1) as [_ H1].
  destruct (create_network_spec m t2) as [_ H2].
  rewrite H1, H2. intros [v Hv]. exists v. by eapply frequent_mono.
Qed.

Lemma adjacent_mono (u v : str) :
  is_Some (neighbors G2 u !! v) → is_Some (neighbors G1 u !! v).
Proof.
  destruct (create_network_spec m t1) as [H1 _].
  destruct (create_network_spec m t2) as [H2 _].
  rewrite H1, H2. by apply frequent_mono.
Qed.

Lemma degree_mono (u : str) : (nx.degree G2 u ≤ nx.degree G1 u)%nat.
Proof.
  rewrite !degree_neighbors.
  assert (size (neighbors G2 u) ≤ size (neighbors G1 u))%nat.
  { rewrite <- !size_dom. apply subseteq_size.
    intros v. rewrite !elem_of_dom. apply adjacent_mono. }
  pose proof (adjacent_mono u u).
  repeat destruct (decide _); try lia. tauto.
Qed.

Lemma degree_sum_mono :
  (sum_list ((λ n, nx.degree G2 n) <$> nx.nodes G2)
   ≤ sum_list ((λ n, nx.degree G1 n) <$> nx.nodes G1))%nat.
Proof.
  etrans; [| apply sum_list_submseteq, nodes_mono].
  induction (nx.nodes G2) as [|u l IH]; csimpl; [done |].
  pose proof (degree_mono u). lia.
Qed.

End ThresholdFacts.

(** C7. For every co-occurrence map and thresholds [t1 <= t2], the graph
    built with [t2] has no more nodes and no more edges than the graph built
    with [t1]. *)
Theorem create_network_monotone (cooccurrence : gmap (str * str) Z) (t1 t2 : Z) :
  t1 ≤ t2 →
  (nx.number_of_nodes (NetworkAnalyzer.create_network cooccurrence t2)
   ≤ nx.number_of_nodes (NetworkAnalyzer.create_network cooccurrence t1))%nat ∧
  (nx.number_of_edges (NetworkAnalyzer.create_network cooccurrence t2)
   ≤ nx.number_of_edges (NetworkAnalyzer.create_network cooccurrence t1))%nat.
Proof.
  intros Ht. split.
  - unfold nx.number_of_nodes. by apply submseteq_length, nodes_mono.
  - unfold nx.number_of_edges. by apply Nat.Div0.div_le_mono, degree_sum_mono.
Qed.

Lemma create_network_monotone_witness :
  (nx.number_of_nodes (NetworkAnalyzer.create_network example_cooccurrence 3)
   ≤ nx.number_of_nodes (NetworkAnalyzer.create_network example_cooccurrence 2))%nat ∧
  (nx.number_of_edges (NetworkAnalyzer.create_network example_cooccurrence 3)
   ≤ nx.number_of_edges (NetworkAnalyzer.create_network example_cooccurrence 2))%nat.
Proof. apply (create_network_monotone example_cooccurrence 2 3). lia. Defined.

(** C1, as stated: counts 3 and 1, and with threshold 2 an edge for
    clean/service and none for bed/view. The code counts every pair of
    positions from both of its ends, so the counts are 6 and 2 and bed/view
    reaches the threshold. *)
Lemma example_counts_not_3_and_1 :
  ¬ (example_cooccurrence !! (py "clean", py "service") = Some 3 ∧
     example_cooccurrence !! (py "bed", py "view") = Some 1 ∧
     nx.has_edge (NetworkAnalyzer.create_network example_cooccurrence 2)
       (py "clean") (py "service") = true ∧
     nx.has_edge (NetworkAnalyzer.create_network example_cooccurrence 2)
       (py "bed") (py "view") = false).
Proof. intros (H & _). vm_compute in H. discriminate. Qed.

(** C1, amended. On the example texts with window 5, the pair clean/service
    has count 6 and the pair bed/view has count 2; for every threshold the
    graph has the edge clean/service exactly when the threshold is at most 6
    and the edge bed/view exactly when it is at most 2. So with threshold 2
    both pairs are edges, and with the thresholds 3 to 6 clean/service is an
    edge and bed/view is not. *)
Theorem example_counts_and_edges :
  example_cooccurrence !! (py "clean", py "service") = Some 6 ∧
  example_cooccurrence !! (py "bed", py "view") = Some 2 ∧
  ∀ min_frequency : Z,
    (nx.has_edge (NetworkAnalyzer.create_network example_cooccurrence min_frequency)
       (py "clean") (py "service") = true ↔ min_frequency ≤ 6) ∧
    (nx.has_edge (NetworkAnalyzer.create_network example_cooccurrence min_frequency)
       (py "bed") (py "view") = true ↔ min_frequency ≤ 2).
Proof.
  assert (example_cooccurrence !! (py "clean", py "service") = Some 6) as Hcs
    by (vm_compute; reflexivity).
  assert (example_cooccurrence !! (py "service", py "clean") = None) as Hsc
    by (vm_compute; reflexivity).
  assert (example_cooccurrence !! (py "bed", py "view") = Some 2) as Hbv
    by (vm_compute; reflexivity).
  assert (example_cooccurrence !! (py "view", py "bed") = None) as Hvb
    by (vm_compute; reflexivity).
  split; [exact Hcs |]. split; [exact Hbv |].
  intros min_frequency. rewrite !create_network_has_edge. unfold frequent.
  rewrite Hcs, Hsc, Hbv, Hvb. split; split.
  - intros (f & Hf & [[= <-] | [=]]). exact Hf.
  - intros Hle. exists 6. auto.
  - intros (f & Hf & [[= <-] | [=]]). exact Hf.
  - intros Hle. exists 2. auto.
Qed.

(** ** Pair counting *)
Section CountFacts.

Implicit Types (cooccurrence : gmap (str * str) Z) (pair : str * str).

Lemma count_pair_positive cooccurrence word1 word2 :
  all_positive cooccurrence → all_positive (count_pair cooccurrence word1 word2).
Proof.
  intros Hpos pair c. unfold count_pair.
  destruct (decide (sorted_pair word1 word2 = pair)) as [<- | Hne].
  - rewrite lookup_insert_eq. intros [= <-].
    destruct (cooccurrence !! sorted_pair word1 word2) as [c0|] eqn:E; simpl; [| lia].
    apply Hpos in E. lia.
  - rewrite lookup_insert_ne by done. apply Hpos.
Qed.

Lemma count_pair_counted cooccurrence word1 word2 :
  all_positive cooccurrence →
  counted (sorted_pair word1 word2) (count_pair cooccurrence word1 word2).
Proof.
  intros Hpos. split; [by apply count_pair_positive |].
  unfold count_pair. rewrite lookup_insert_eq. by eexists.
Qed.

Lemma count_pair_keeps pair cooccurrence word1 word2 :
  counted pair cooccurrence → counted pair (count_pair cooccurrence word1 word2).
Proof.
  intros [Hpos Hin]. split; [by apply count_pair_positive |].
  unfold count_pair. destruct (decide (sorted_pair word1 word2 = pair)) as [<- | Hne].
  - rewrite lookup_insert_eq. by eexists.
  - by rewrite lookup_insert_ne.
Qed.

Lemma sorted_pair_same (word : str) : sorted_pair word word = (word, word).
Proof. unfold sorted_pair. by destruct (str_leb word word). Qed.

(** A loop that keeps [I] and [Q], and reaches [Q] from [I] at the element
    [x], ends in [Q] when [x] is among the elements it visits. *)
Lemma foldl_reaches {A B} (f : A → B → A) (I Q : A → Prop) (l : list B) (x : B) (acc : A) :
  (∀ a y, I a → I (f a y)) →
  (∀ a y, Q a → Q (f a y)) →
  (∀ a, I a → Q (f a x)) →
  x ∈ l → I acc → Q (foldl f acc l).
Proof.
  intros HI HQ Hx Hin Hacc.
  apply list_elem_of_split in Hin as (l1 & l2 & ->).
  rewrite foldl_app. simpl.
  assert (∀ l a, Q a → Q (foldl f a l)) as HQs.
  { intros l. induction l as [|y l IH]; intros a Ha; simpl; auto. }
  assert (∀ l a, I a → I (foldl f a l)) as HIs.
  { intros l. induction l as [|y l IH]; intros a Ha; simpl; auto. }
  auto.
Qed.

Lemma foldl_keeps {A B} (f : A → B → A) (I : A → Prop) (l : list B) (acc : A) :
  (∀ a y, I a → I (f a y)) → I acc → I (foldl f acc l).
Proof. intros HI. revert acc. induction l as [|y l IH]; intros acc Hacc; simpl; auto. Qed.

Variable keywords : list str.
Variable window_size : Z.

Lemma window_loop_positive i word1 cooccurrence :
  all_positive cooccurrence →
  all_positive (window_loop keywords window_size i word1 cooccurrence).
Proof.
  unfold window_loop. apply foldl_keeps. intros a j Ha.
  destruct (decide (i ≠ j)); [| done].
  destruct (keywords !! Z.to_nat j); [by apply count_pair_positive | done].
Qed.

Lemma window_loop_keeps pair i word1 cooccurrence :
  counted pair cooccurrence →
  counted pair (window_loop keywords window_size i word1 cooccurrence).
Proof.
  unfold window_loop. apply foldl_keeps. intros a j Ha.
  destruct (decide (i ≠ j)); [| done].
  destruct (keywords !! Z.to_nat j); [by apply count_pair_keeps | done].
Qed.

(** The inner loop at position [i] counts the pair with every other position
    [j] of the window. *)
Lemma window_loop_counts (i j : nat) (word1 word2 : str) cooccurrence :
  (i < length keywords)%nat →
  keywords !! j = Some word2 →
  i ≠ j →
  Z.abs (Z.of_nat i - Z.of_nat j) ≤ window_size →
  all_positive cooccurrence →
  counted (sorted_pair word1 word2)
    (window_loop keywords window_size (Z.of_nat i) word1 cooccurrence).
Proof.
  intros Hi Hj Hne Hwin Hpos. unfold window_loop.
  apply (foldl_reaches _ all_positive (counted (sorted_pair word1 word2)) _ (Z.of_nat j)).
  - intros a k Ha. destruct (decide (Z.of_nat i ≠ k)); [| done].
    destruct (keywords !! Z.to_nat k); [by apply count_pair_positive | done].
  - intros a k Ha. destruct (decide (Z.of_nat i ≠ k)); [| done].
    destruct (keywords !! Z.to_nat k); [by apply count_pair_keeps | done].
  - intros a Ha. destruct (decide (Z.of_nat i ≠ Z.of_nat j)) as [_ | Heq]; [| lia].
    rewrite Nat2Z.id, Hj. by apply count_pair_counted.
  - unfold range. apply elem_of_seqZ. apply lookup_lt_Some in Hj. lia.
  - done.
Qed.

Lemma keywords_loop_positive cooccurrence :
  all_positive cooccurrence →
  all_positive (keywords_loop keywords window_size cooccurrence).
Proof.
  unfold keywords_loop. apply foldl_keeps. intros a [i word1] Ha.
  by apply window_loop_positive.
Qed.

Lemma keywords_loop_keeps pair cooccurrence :
  counted pair cooccurrence →
  counted pair (keywords_loop keywords window_size cooccurrence).
Proof.
  unfold keywords_loop. apply foldl_keeps. intros a [i word1] Ha.
  by apply window_loop_keeps.
Qed.

Lemma keywords_loop_counts (i j : nat) (word1 word2 : str) cooccurrence :
  keywords !! i = Some word1 →
  keywords !! j = Some word2 →
  i ≠ j →
  Z.abs (Z.of_nat i - Z.of_nat j) ≤ window_size →
  all_positive cooccurrence →
  counted (sorted_pair word1 word2) (keywords_loop keywords window_size cooccurrence).
Proof.
  intros Hi Hj Hne Hwin Hpos. unfold keywords_loop.
  apply (foldl_reaches _ all_positive (counted (sorted_pair word1 word2)) _
           (Z.of_nat i, word1)).
  - intros a [k w] Ha. by apply window_loop_positive.
  - intros a [k w] Ha. by apply window_loop_keeps.
  - intros a Ha. apply (window_loop_counts i j); try done. by apply lookup_lt_Some in Hi.
  - apply list_elem_of_lookup. exists i. apply lookup_zip_with_Some.
    exists (Z.of_nat i), word1. split; [done |]. split; [| done].
    apply lookup_seqZ. apply lookup_lt_Some in Hi. lia.
  - done.
Qed.

End CountFacts.

Lemma get_cooccurrence_matrix_counts (morphs : str → list str) (lower : str → str)
    (texts : list str) (exclude_words include_words : option (list str))
    (window_size : Z) (text : str) (i j : nat) (word1 word2 : str) :
  text ∈ texts →
  extract_keywords morphs lower text exclude_words include_words !! i = Some word1 →
  extract_keywords morphs lower text exclude_words include_words !! j = Some word2 →
  i ≠ j →
  Z.abs (Z.of_nat i - Z.of_nat j) ≤ window_size →
  counted (sorted_pair word1 word2)
    (get_cooccurrence_matrix morphs lower texts exclude_words include_words window_size).
Proof.
  intros Hin Hi Hj Hne Hwin. unfold get_cooccurrence_matrix.
  apply (foldl_reaches _ all_positive (counted (sorted_pair word1 word2)) _ text).
  - intros a y Ha. by apply keywords_loop_positive.
  - intros a y Ha. by apply keywords_loop_keeps.
  - intros a Ha. by eapply keywords_loop_counts.
  - done.
  - intros pair c H. by apply lookup_empty_Some in H.
Qed.

(** C10. Pair counting leaves out equal positions, not equal tokens: when a
    token [w] stands at two distinct positions of a keyword sequence, at most
    the window size apart, the co-occurrence map has the key [(w, w)] with a
    positive count, and [create_network] gives the node [w] a self-loop for
    every threshold that this count reaches. *)
Theorem repeated_token_self_loop (morphs : str → list str) (lower : str → str)
    (texts : list str) (exclude_words include_words : option (list str))
    (window_size : Z) (text : str) (i j : nat) (w : str) :
  text ∈ texts →
  extract_keywords morphs lower text exclude_words include_words !! i = Some w →
  extract_keywords morphs lower text exclude_words include_words !! j = Some w →
  i ≠ j →
  Z.abs (Z.of_nat i - Z.of_nat j) ≤ window_size →
  ∃ c,
    get_cooccurrence_matrix morphs lower texts exclude_words include_words window_size
      !! (w, w) = Some c ∧
    0 < c ∧
    ∀ min_frequency, min_frequency ≤ c →
      nx.has_edge
        (NetworkAnalyzer.create_network
           (get_cooccurrence_matrix morphs lower texts exclude_words include_words
              window_size)
           min_frequency) w w = true.
Proof.
  intros Hin Hi Hj Hne Hwin.
  destruct (get_cooccurrence_matrix_counts morphs lower texts exclude_words
              include_words window_size text i j w w Hin Hi Hj Hne Hwin)
    as [Hpos [c Hc]].
  rewrite sorted_pair_same in Hc. exists c. split; [done |]. split; [by eapply Hpos |].
  intros t Ht. apply create_network_has_edge. exists c. auto.
Qed.

Lemma repeated_token_self_loop_witness :
  ∃ c,
    get_cooccurrence_matrix split_words ascii_lower [py "aa aa bb"] None None 5
      !! (py "aa", py "aa") = Some c ∧
    0 < c ∧
    ∀ min_frequency, min_frequency ≤ c →
      nx.has_edge
        (NetworkAnalyzer.create_network
           (get_cooccurrence_matrix split_words ascii_lower [py "aa aa bb"] None None 5)
           min_frequency) (py "aa") (py "aa") = true.
Proof.
  apply (repeated_token_self_loop split_words ascii_lower [py "aa aa bb"] None None 5
           (py "aa aa bb") 0 1 (py "aa")).
  - apply list_elem_of_here.
  - reflexivity.
  - reflexivity.
  - discriminate.
  - vm_compute. discriminate.
Defined.

(** ** Rounding *)
Section RoundFacts.

Lemma round_half_even_bounds (q : Q) (a b : Z) :
  (inject_Z a <= q)%Q → (q <= inject_Z b)%Q → a ≤ pd.round_half_even q ≤ b.
Proof.
  intros Ha Hb.
  assert (a ≤ Qfloor q) as Hlo.
  { rewrite <- (Qfloor_Z a). by apply Qfloor_resp_le. }
  assert (Qfloor q ≤ b) as Hhi.
  { rewrite <- (Qfloor_Z b). by apply Qfloor_resp_le. }
  assert ((inject_Z (Qfloor q) < q)%Q → Qfloor q + 1 ≤ b) as Hup.
  { intros Hlt. assert (Qfloor q < b); [| lia].
    rewrite Zlt_Qlt. lra. }
  unfold pd.round_half_even.
  destruct (q - inject_Z (Qfloor q) ?= 1 # 2)%Q eqn:E.
  - apply Qeq_alt in E. destruct (Z.even (Qfloor q)); [lia |].
    split; [lia |]. apply Hup. lra.
  - lia.
  - apply Qgt_alt in E. split; [lia |]. apply Hup. lra.
Qed.

Lemma round4_bounds (q : Q) (a b : Z) :
  (inject_Z a <= q)%Q → (q <= inject_Z b)%Q →
  (inject_Z a <= pd.round4 q)%Q ∧ (pd.round4 q <= inject_Z b)%Q.
Proof.
  intros Ha Hb. unfold pd.round4.
  destruct (round_half_even_bounds (q * 10000) (a * 10000) (b * 10000)) as [Hlo Hhi].
  - rewrite inject_Z_mult. change (inject_Z 10000) with 10000%Q. lra.
  - rewrite inject_Z_mult. change (inject_Z 10000) with 10000%Q. lra.
  - rewrite Zle_Qle, inject_Z_mult in Hlo. rewrite Zle_Qle, inject_Z_mult in Hhi.
    change (inject_Z 10000) with 10000%Q in *.
    set (r := inject_Z (pd.round_half_even (q * 10000))) in *.
    split.
    + apply Qle_shift_div_l; [reflexivity | done].
    + apply Qle_shift_div_r; [reflexivity | done].
Qed.

Lemma round4_zero (q : Q) : (q == 0)%Q → (pd.round4 q == 0)%Q.
Proof.
  intros Hq. destruct (round4_bounds q 0 0) as [Hlo Hhi].
  - change (inject_Z 0) with 0%Q. lra.
  - change (inject_Z 0) with 0%Q. lra.
  - change (inject_Z 0) with 0%Q in *. lra.
Qed.

End RoundFacts.

(** ** The centrality table *)
Section CentralityFacts.

Variable betweenness_centrality closeness_centrality : gmap str (gmap str Z) → str → Q.
Variable eigenvector_centrality : gmap str (gmap str Z) → option (str → Q).

Implicit Types (G : gmap str (gmap str Z)) (n u v : str).

#[local] Abbreviation calculate_centrality_metrics :=
  (NetworkAnalyzer.calculate_centrality_metrics
     betweenness_centrality closeness_centrality eigenvector_centrality).
#[local] Abbreviation row :=
  (rounded_row betweenness_centrality closeness_centrality eigenvector_centrality).

Lemma degree_centrality_scores G :
  nx.degree_centrality G = (λ n, (n, degree_score G n)) <$> nx.nodes G.
Proof. unfold nx.degree_centrality, degree_score. by destruct (decide _). Qed.

Lemma of_columns_fmap {A} (l : list A) (k : A → str) (d b c e : A → Q) :
  pd.of_columns (k <$> l) (d <$> l) (b <$> l) (c <$> l) (e <$> l)
  = Some ((λ x, {| pd.keyword := k x; pd.degree_centrality := d x;
                   pd.betweenness_centrality := b x; pd.closeness_centrality := c x;
                   pd.eigenvector_centrality := e x |}) <$> l).
Proof.
  unfold pd.of_columns. rewrite !length_fmap.
  destruct (decide _) as [_ | Hno]; [| by destruct Hno].
  f_equal. induction l as [|x l IH]; csimpl; [done |]. by f_equal.
Qed.

(** The table is the sorted list of the rounded rows of the nodes. *)
Lemma calculate_rows G :
  calculate_centrality_metrics (Some G)
  = Some (pd.sort_values (row G <$> nx.nodes G)).
Proof.
  unfold NetworkAnalyzer.calculate_centrality_metrics.
  destruct (decide (nx.number_of_nodes G = 0)%nat) as [H0 | _].
  { unfold nx.number_of_nodes in H0. apply length_zero_iff_nil in H0. by rewrite H0. }
  rewrite degree_centrality_scores. unfold NetworkAnalyzer.node_dict.
  assert (((λ node, (node, 0%Q)) <$> nx.nodes G).*2 = (λ _, 0%Q) <$> nx.nodes G) as E0.
  { by rewrite <- list_fmap_compose. }
  rewrite <- !list_fmap_compose.
  destruct (eigenvector_centrality G) as [scores|] eqn:Ee.
  - rewrite <- !list_fmap_compose.
    rewrite (of_columns_fmap (nx.nodes G) id). simpl. f_equal. f_equal.
    unfold pd.round. rewrite <- list_fmap_compose. apply list_fmap_ext.
    intros i n _. unfold rounded_row, eigenvector_score. by rewrite Ee.
  - rewrite E0.
    rewrite (of_columns_fmap (nx.nodes G) id). simpl. f_equal. f_equal.
    unfold pd.round. rewrite <- list_fmap_compose. apply list_fmap_ext.
    intros i n _. unfold rounded_row, eigenvector_score. by rewrite Ee.
Qed.

Lemma calculate_table G :
  ∃ df, calculate_centrality_metrics (Some G) = Some df ∧
        df ≡ₚ row G <$> nx.nodes G.
Proof.
  eexists. split; [apply calculate_rows |]. apply merge_sort_Permutation.
Qed.

Lemma table_keywords G (df : list pd.Row) :
  df ≡ₚ row G <$> nx.nodes G → pd.keyword <$> df ≡ₚ nx.nodes G.
Proof.
  intros ->. rewrite <- list_fmap_compose.
  rewrite (list_fmap_ext _ id (nx.nodes G)); [by rewrite list_fmap_id |].
  by intros.
Qed.

Lemma table_row G (df : list pd.Row) (r : pd.Row) :
  df ≡ₚ row G <$> nx.nodes G → r ∈ df →
  r = row G (pd.keyword r) ∧ pd.keyword r ∈ nx.nodes G.
Proof.
  intros Hp Hr. rewrite Hp in Hr.
  apply list_elem_of_fmap in Hr as (n & -> & Hn). done.
Qed.




End CentralityFacts.

(** C3. When the eigenvector centrality of the library fails on the current
    graph, [calculate_centrality_metrics] still returns its table, with a row
    for every node and the eigenvector score 0 in every row; and on a graph
    without nodes, or without a graph, it returns the empty table. *)
Theorem eigenvector_failure_gives_zero
    (betweenness_centrality closeness_centrality : gmap str (gmap str Z) → str → Q)
    (eigenvector_centrality : gmap str (gmap str Z) → option (str → Q))
    (G : gmap str (gmap str Z)) :
  (eigenvector_centrality G = None →
   ∃ df,
     NetworkAnalyzer.calculate_centrality_metrics betweenness_centrality
       closeness_centrality eigenvector_centrality (Some G) = Some df ∧
     pd.keyword <$> df ≡ₚ nx.nodes G ∧
     ∀ r, r ∈ df → (pd.eigenvector_centrality r == 0)%Q) ∧
  (nx.number_of_nodes G = 0%nat →
   NetworkAnalyzer.calculate_centrality_metrics betweenness_centrality
     closeness_centrality eigenvector_centrality (Some G) = Some []) ∧
  NetworkAnalyzer.calculate_centrality_metrics betweenness_centrality
    closeness_centrality eigenvector_centrality None = Some [].
Proof.
  split; [| split]; [| | done].
  - intros Hfail.
    destruct (calculate_table betweenness_centrality closeness_centrality
                eigenvector_centrality G) as (df & Hdf & Hperm).
    exists df. split; [done |]. split; [by eapply table_keywords |].
    intros r Hr. destruct (table_row _ _ _ G df r Hperm Hr) as [-> _]. simpl.
    apply round4_zero. unfold eigenvector_score. by rewrite Hfail.
  - intros H0. unfold NetworkAnalyzer.calculate_centrality_metrics.
    by destruct (decide _).
Qed.

Lemma eigenvector_failure_gives_zero_witness :
  (∃ df,
     NetworkAnalyzer.calculate_centrality_metrics (λ _ _, 0%Q) (λ _ _, 0%Q) (λ _, None)
       (Some loop_graph) = Some df ∧
     pd.keyword <$> df ≡ₚ nx.nodes loop_graph ∧
     ∀ r, r ∈ df → (pd.eigenvector_centrality r == 0)%Q) ∧
  NetworkAnalyzer.calculate_centrality_metrics (λ _ _, 0%Q) (λ _ _, 0%Q) (λ _, None)
    (Some nx.empty_graph) = Some [].
Proof.
  split.
  - destruct (eigenvector_failure_gives_zero (λ _ _, 0%Q) (λ _ _, 0%Q) (λ _, None)
                loop_graph) as (Hfail & _ & _).
    apply Hfail. reflexivity.
  - destruct (eigenvector_failure_gives_zero (λ _ _, 0%Q) (λ _ _, 0%Q) (λ _, None)
                nx.empty_graph) as (_ & Hempty & _).
    apply Hempty. reflexivity.
Defined.



(** ** Topic modelling *)

Section FitFacts.

Variable is_space : char → bool.
Variable fit_transform_counts :
  sklearn.CountVectorizer → list str → sklearn.CountVectorizer * option (list (list Z)).
Variable fit_transform_lda :
  sklearn.LatentDirichletAllocation → list (list Z) →
  sklearn.LatentDirichletAllocation * option (list (list Q)).

#[local] Abbreviation fit_lda_model :=
  (TopicModeler.fit_lda_model is_space fit_transform_counts fit_transform_lda).

(** On empty or blank input the call returns [None] and changes nothing. *)
Lemma fit_lda_model_no_text texts n_topics max_features self :
  TopicModeler.no_text is_space texts = true →
  fit_lda_model texts n_topics max_features self = (None, self).
Proof. intros H. unfold TopicModeler.fit_lda_model. by rewrite H. Qed.

(** A failure of the vectorization: the new vectorizer is in place, the model
    and the document-topic matrix are the old ones. *)
Lemma fit_lda_model_vectorization_fails texts n_topics max_features self :
  TopicModeler.no_text is_space texts = false →
  vectorization_fails fit_transform_counts texts max_features →
  fit_lda_model texts n_topics max_features self
  = (None,
     {| TopicModeler.lda_model := TopicModeler.lda_model self;
        TopicModeler.vectorizer :=
          Some (fit_transform_counts (TopicModeler.new_vectorizer max_features) texts).1;
        TopicModeler.doc_topic_matrix := TopicModeler.doc_topic_matrix self |}).
Proof.
  intros Htext Hfail. unfold TopicModeler.fit_lda_model. rewrite Htext.
  unfold vectorization_fails in Hfail.
  destruct (fit_transform_counts (TopicModeler.new_vectorizer max_features) texts) as [v m].
  destruct Hfail as [Hnone | (dtm & Hsome & Hsum)]; simpl in *.
  - by rewrite Hnone.
  - rewrite Hsome. by destruct (decide _).
Qed.

(** A failure of the topic-model fit: the new vectorizer and the new model
    are in place, only the document-topic matrix is the old one. *)
Lemma fit_lda_model_lda_fails texts n_topics max_features self doc_term_matrix :
  TopicModeler.no_text is_space texts = false →
  (fit_transform_counts (TopicModeler.new_vectorizer max_features) texts).2 = Some doc_term_matrix →
  np.sum doc_term_matrix ≠ 0 →
  (fit_transform_lda (TopicModeler.new_model n_topics) doc_term_matrix).2 = None →
  fit_lda_model texts n_topics max_features self
  = (None,
     {| TopicModeler.lda_model :=
          Some (fit_transform_lda (TopicModeler.new_model n_topics) doc_term_matrix).1;
        TopicModeler.vectorizer :=
          Some (fit_transform_counts (TopicModeler.new_vectorizer max_features) texts).1;
        TopicModeler.doc_topic_matrix := TopicModeler.doc_topic_matrix self |}).
Proof.
  intros Htext Hsome Hsum Hfail. unfold TopicModeler.fit_lda_model. rewrite Htext.
  destruct (fit_transform_counts (TopicModeler.new_vectorizer max_features) texts) as [v m].
  simpl in *. subst m. destruct (decide _) as [? | _]; [done |].
  destruct (fit_transform_lda (TopicModeler.new_model n_topics) doc_term_matrix) as [md mx].
  simpl in *. by subst mx.
Qed.

(** A successful call leaves the returned model in [self.lda_model]. *)
Lemma fit_lda_model_success texts n_topics max_features self model self' :
  fit_lda_model texts n_topics max_features self = (Some model, self') →
  TopicModeler.lda_model self' = Some model.
Proof.
  unfold TopicModeler.fit_lda_model.
  destruct (TopicModeler.no_text is_space texts); [done |].
  destruct (fit_transform_counts _ texts) as [v [dtm|]]; [| done].
  destruct (decide _); [done |].
  destruct (fit_transform_lda _ dtm) as [md [mx|]]; [| done].
  by intros [= <- <-].
Qed.

End FitFacts.

(** The first fit on the sample documents succeeds. *)
Lemma sample_first_fit :
  TopicModeler.fit_lda_model ascii_is_space sample_fit_transform_counts
    sample_fit_transform_lda sample_documents 5 100 TopicModeler.init
  = (Some sample_model, sample_fitted).
Proof. reflexivity. Qed.

(** The vectorizer on the sample documents: staff is in one document only
    and is pruned. *)
Example sample_documents_matrix :
  sample_fit_transform_counts (TopicModeler.new_vectorizer 100) sample_documents
  = ({| sklearn.max_features := 100; sklearn.vocabulary_ := Some sample_vocabulary |},
     Some [[1; 0; 1; 0]; [1; 0; 1; 0]; [0; 0; 1; 1]; [0; 1; 0; 1]; [0; 1; 0; 0]]).
Proof. reflexivity. Qed.

(** When every document has the same words, each word is in more than 0.8 of
    the documents: no term is left and the fit of the vectorizer raises. *)
Example same_words_no_terms :
  sample_fit_transform_counts (TopicModeler.new_vectorizer 100)
    [py "room clean"; py "clean room"; py "room clean"; py "clean room"; py "room clean"]
  = (TopicModeler.new_vectorizer 100, None).
Proof. reflexivity. Qed.

(** A second call with a topic count of 0 gets through the vectorization and
    fails in the fit of the topic model: [self.lda_model] is then the new,
    unfitted model and no longer the earlier one. *)
Lemma sample_failed_lda_fit :
  TopicModeler.fit_lda_model ascii_is_space sample_fit_transform_counts
    sample_fit_transform_lda sample_documents 0 100 sample_fitted
  = (None,
     {| TopicModeler.lda_model := Some (TopicModeler.new_model 0);
        TopicModeler.vectorizer := TopicModeler.vectorizer sample_fitted;
        TopicModeler.doc_topic_matrix := TopicModeler.doc_topic_matrix sample_fitted |}).
Proof. reflexivity. Qed.

(** C9, as stated, for every call that returns [None] after an earlier
    successful fit: the call that fails in the fit of the topic model is one
    after which the modeler does not hold the earlier model. *)
Lemma failed_lda_fit_replaces_model : ¬ failed_fit_keeps_earlier_model.
Proof.
  intros H.
  destruct (H _ _ _ _ _ _ _ _ _ _ _ _ _ sample_first_fit sample_failed_lda_fit)
    as [Hmodel _].
  discriminate Hmodel.
Qed.

(** C9, amended. [fit_lda_model] is not atomic on failure: it reassigns
    [self.vectorizer] before it attempts the fit, so when a call after an
    earlier successful fit fails in the vectorization (the fit of the
    vectorizer raises, or its matrix is all zero), it returns [None] and
    leaves the earlier model and document-topic matrix beside the newly
    created vectorizer; [get_topics_dataframe] and
    [get_topic_keywords_summary] then do not return their empty result but
    read the components of the stale model against the feature names of the
    new vectorizer. *)
Theorem failed_vectorization_keeps_stale_model
    (is_space : char → bool)
    (fit_transform_counts :
       sklearn.CountVectorizer → list str →
       sklearn.CountVectorizer * option (list (list Z)))
    (fit_transform_lda :
       sklearn.LatentDirichletAllocation → list (list Z) →
       sklearn.LatentDirichletAllocation * option (list (list Q)))
    (texts0 : list str) (n_topics0 max_features0 : Z) (self0 : TopicModeler.t)
    (earlier : sklearn.LatentDirichletAllocation) (self : TopicModeler.t)
    (texts : list str) (n_topics max_features : Z) :
  TopicModeler.fit_lda_model is_space fit_transform_counts fit_transform_lda
    texts0 n_topics0 max_features0 self0 = (Some earlier, self) →
  TopicModeler.no_text is_space texts = false →
  vectorization_fails fit_transform_counts texts max_features →
  let fresh := (fit_transform_counts (TopicModeler.new_vectorizer max_features) texts).1 in
  ∃ self',
    TopicModeler.fit_lda_model is_space fit_transform_counts fit_transform_lda
      texts n_topics max_features self = (None, self') ∧
    TopicModeler.lda_model self' = Some earlier ∧
    TopicModeler.doc_topic_matrix self' = TopicModeler.doc_topic_matrix self ∧
    TopicModeler.vectorizer self' = Some fresh ∧
    (∀ n_words, TopicModeler.get_topics_dataframe n_words self'
                = read_topics fresh earlier n_words) ∧
    TopicModeler.get_topic_keywords_summary self' = read_summary fresh earlier.
Proof.
  intros Hfit Htext Hfail fresh.
  apply fit_lda_model_success in Hfit.
  eexists. split.
  { by apply fit_lda_model_vectorization_fails. }
  unfold TopicModeler.get_topics_dataframe, TopicModeler.get_topic_keywords_summary.
  cbn [TopicModeler.lda_model TopicModeler.vectorizer TopicModeler.doc_topic_matrix].
  rewrite Hfit. done.
Qed.

Lemma failed_vectorization_keeps_stale_model_witness :
  ∃ self',
    TopicModeler.fit_lda_model ascii_is_space sample_fit_transform_counts
      sample_fit_transform_lda [py "room clean"; py "clean room"] 5 100 sample_fitted
    = (None, self') ∧
    TopicModeler.lda_model self' = Some sample_model ∧
    TopicModeler.doc_topic_matrix self' = TopicModeler.doc_topic_matrix sample_fitted ∧
    TopicModeler.vectorizer self' = Some (TopicModeler.new_vectorizer 100) ∧
    (∀ n_words, TopicModeler.get_topics_dataframe n_words self'
                = read_topics (TopicModeler.new_vectorizer 100) sample_model n_words) ∧
    TopicModeler.get_topic_keywords_summary self'
    = read_summary (TopicModeler.new_vectorizer 100) sample_model.
Proof.
  apply (failed_vectorization_keeps_stale_model ascii_is_space
           sample_fit_transform_counts sample_fit_transform_lda
           sample_documents 5 100 TopicModeler.init sample_model sample_fitted
           [py "room clean"; py "clean room"] 5 100).
  - reflexivity.
  - reflexivity.
  - left. reflexivity.
Defined.

(** After that failed call the first query raises instead of returning the
    empty table: the new vectorizer has no vocabulary. *)
Example stale_query_raises :
  TopicModeler.get_topics_dataframe 8
    (TopicModeler.fit_lda_model ascii_is_space sample_fit_transform_counts
       sample_fit_transform_lda [py "room clean"; py "clean room"] 5 100
       sample_fitted).2
  = Raise NotFittedError.
Proof. reflexivity. Qed.

(** ** The driver *)

(** C2. Whenever fewer than five filtered documents reach the topic
    modelling step of the analysis, the topic model of the result is [None],
    whatever the documents contain: the fit is not attempted, so the topic
    modeler is left as it was and the outcome is the same for any behaviour
    of the two library fits. *)
Theorem few_documents_no_topic_model
    (is_word is_space is_digit : char → bool)
    (morphs : str → list str) (lower : str → str)
    (fit_transform_counts fit_transform_counts' :
       sklearn.CountVectorizer → list str →
       sklearn.CountVectorizer * option (list (list Z)))
    (fit_transform_lda fit_transform_lda' :
       sklearn.LatentDirichletAllocation → list (list Z) →
       sklearn.LatentDirichletAllocation * option (list (list Q)))
    (data : list (option str)) (exclude_words include_words : option (list str))
    (n_topics min_frequency : Z) (st : App.session_state) (documents : list str) :
  let run fc fl :=
    App.perform_realtime_analysis is_word is_space is_digit morphs lower fc fl
      data exclude_words include_words n_topics min_frequency st in
  App.filtered_texts (run fit_transform_counts fit_transform_lda).1 = Some documents →
  (length documents < 5)%nat →
  App.topic_model (run fit_transform_counts fit_transform_lda).1 = None ∧
  App.topic_modeler (run fit_transform_counts fit_transform_lda).2 = App.topic_modeler st ∧
  run fit_transform_counts' fit_transform_lda' = run fit_transform_counts fit_transform_lda.
Proof.
  intros run. unfold run, App.perform_realtime_analysis.
  destruct (List.filter _ _) as [|text texts]; [done |].
  set (filtered := App.filter_texts morphs lower (text :: texts) exclude_words include_words).
  destruct (decide (5 ≤ length filtered)%nat) as [Hge | Hlt].
  - destruct (TopicModeler.fit_lda_model _ _ _ _ _ _ _) as [model modeler].
    cbn [fst App.filtered_texts]. intros [= <-] Hfew. lia.
  - done.
Qed.

Lemma few_documents_no_topic_model_witness :
  let run fc fl :=
    App.perform_realtime_analysis ascii_is_word ascii_is_space ascii_is_digit
      split_words ascii_lower fc fl
      [Some (py "Room 12 was clean!"); None; Some (py "clean room, nice view");
       Some (py "room clean"); Some (py "??")]
      None None 5 2
      {| App.network_analyzer := None; App.topic_modeler := sample_fitted |} in
  App.topic_model (run sample_fit_transform_counts sample_fit_transform_lda).1 = None ∧
  App.topic_modeler (run sample_fit_transform_counts sample_fit_transform_lda).2
  = sample_fitted ∧
  run (λ v _, (v, None)) (λ m _, (m, None))
  = run sample_fit_transform_counts sample_fit_transform_lda.
Proof.
  apply (few_documents_no_topic_model ascii_is_word ascii_is_space ascii_is_digit
           split_words ascii_lower
           sample_fit_transform_counts (λ v _, (v, None))
           sample_fit_transform_lda (λ m _, (m, None))
           [Some (py "Room 12 was clean!"); None; Some (py "clean room, nice view");
            Some (py "room clean"); Some (py "??")]
           None None 5 2
           {| App.network_analyzer := None; App.topic_modeler := sample_fitted |}
           [py "Room was clean"; py "clean room nice view"; py "room clean"]).
  - vm_compute. reflexivity.
  - vm_compute. lia.
Defined.

(** The floor of five documents is the driver's: [fit_lda_model] itself has
    no such test and fits three documents when the library accepts them. *)
Example fit_lda_model_three_documents :
  (TopicModeler.fit_lda_model ascii_is_space sample_fit_transform_counts
     sample_fit_transform_lda [py "room clean"; py "room view"; py "clean view"]
     5 100 TopicModeler.init).1
  = Some {| sklearn.n_components := 5;
            sklearn.components_ := Some (replicate 5 [(3 # 2)%Q; (1 # 2)%Q; (1 # 2)%Q]) |}.
Proof. reflexivity. Qed.

(** * Further properties *)

(** ** Cleaning: the shape of the result *)

Lemma Forall_space_strip (is_space : char → bool) (text : str) :
  Forall (λ c, is_space c = true) text → strip is_space text = [].
Proof.
  intros H. unfold strip.
  assert (lstrip is_space text = []) as ->; [| done].
  induction H as [|c rest Hc _ IH]; simpl; [done |]. by rewrite Hc.
Qed.

Lemma Forall_space_sub_spaces (is_space : char → bool) (text : str) :
  is_space space = true →
  Forall (λ c, is_space c = true) text →
  Forall (λ c, is_space c = true) (sub_spaces is_space text).
Proof.
  intros Hsp. induction 1 as [|c rest Hc _ IH]; [constructor |].
  cbn [sub_spaces]. rewrite Hc.
  destruct rest as [|c2 rest]; [by repeat constructor |].
  destruct (is_space c2); [done | by constructor].
Qed.

(** X1. A cleaned text is in normal form: it has no digit and nothing but
    word characters and plain spaces, no two whitespace characters are
    neighbours, and it neither starts nor ends with whitespace. *)
Theorem clean_text_normal_form (is_word is_space is_digit : char → bool)
    (text : option str) :
  is_space space = true →
  is_digit space = false →
  let cleaned := clean_text is_word is_space is_digit text in
  Forall (λ c, is_digit c = false ∧ (c = space ∨ (is_word c = true ∧ is_space c = false)))
    cleaned ∧
  single_spaced is_space cleaned ∧
  strip is_space cleaned = cleaned.
Proof.
  intros Hs Hd cleaned. destruct text as [s|]; [| by repeat split].
  assert (Forall (kept is_word is_space is_digit) cleaned) as Hk.
  { by apply strip_kept, sub_spaces_kept, sub_digits_kept. }
  assert (single_spaced is_space cleaned) as Hsingle.
  { apply single_spaced_strip, sub_spaces_single_spaced. }
  split; [| split; [done | apply strip_idemp]].
  clear -Hk Hsingle. induction cleaned as [|c rest IH]; [constructor |].
  apply Forall_cons in Hk as [[Hw Hdig] Hk]. destruct Hsingle as [Hc Hsingle].
  constructor; [| by apply IH]. split; [done |].
  destruct (is_space c) eqn:Ec.
  - left. by destruct (Hc eq_refl).
  - right. rewrite orb_false_r in Hw. done.
Qed.

Lemma clean_text_normal_form_witness :
  let cleaned :=
    clean_text ascii_is_word ascii_is_space ascii_is_digit
      (Some (py "  Room 101: clean,  quiet!! ")) in
  Forall (λ c, ascii_is_digit c = false ∧
               (c = space ∨ (ascii_is_word c = true ∧ ascii_is_space c = false)))
    cleaned ∧
  single_spaced ascii_is_space cleaned ∧
  strip ascii_is_space cleaned = cleaned.
Proof.
  apply (clean_text_normal_form ascii_is_word ascii_is_space ascii_is_digit
           (Some (py "  Room 101: clean,  quiet!! "))); reflexivity.
Defined.

Lemma clean_text_no_letters (is_word is_space is_digit : char → bool) (s : str) :
  is_space space = true →
  Forall (λ c, is_word c = false ∨ is_digit c = true) s →
  clean_text is_word is_space is_digit (Some s) = [].
Proof.
  intros Hs Hall. unfold clean_text.
  apply Forall_space_strip, Forall_space_sub_spaces; [done |].
  induction Hall as [|c rest Hc _ IH]; [constructor |].
  unfold sub_digits, sub_non_word_space in *. cbn [fmap list_fmap List.filter].
  destruct (is_word c || is_space c) eqn:Ew.
  - destruct (is_digit c) eqn:Ed; simpl; [done |].
    constructor; [| done]. destruct Hc as [Hc | Hc]; [| done].
    by rewrite Hc in Ew.
  - destruct (is_digit space); simpl; [done | by constructor].
Qed.

(** X2. A text without any letter (every character is a digit or no word
    character) is cleaned to the empty string. *)
Theorem clean_text_without_letters (is_word is_space is_digit : char → bool) (s : str) :
  is_space space = true →
  Forall (λ c, is_word c = false ∨ is_digit c = true) s →
  clean_text is_word is_space is_digit (Some s) = [].
Proof. apply clean_text_no_letters. Qed.

Lemma clean_text_without_letters_witness :
  clean_text ascii_is_word ascii_is_space ascii_is_digit (Some (py " 2024-05-17 !? ")) = [].
Proof.
  apply (clean_text_without_letters ascii_is_word ascii_is_space ascii_is_digit).
  - reflexivity.
  - repeat (apply Forall_cons_2; [vm_compute; auto |]). apply Forall_nil_2.
Defined.

(** ** Keyword extraction: order and exclusions *)

(** X3. The keywords are tokens of the tokenizer in their order, each of
    two characters or more and none a builtin stopword. *)
Theorem extract_keywords_sublist (morphs : str → list str) (lower : str → str)
    (text : str) (exclude_words include_words : option (list str)) :
  extract_keywords morphs lower text exclude_words include_words
    `sublist_of` morphs text ∧
  ∀ word, word ∈ extract_keywords morphs lower text exclude_words include_words →
          (2 ≤ length word)%nat ∧ word ∉ builtin_stopwords.
Proof.
  split.
  - unfold extract_keywords. destruct (decide (text = [])); [apply sublist_nil_l |].
    destruct include_words as [[|i inc]|]; try apply sublist_filter.
    destruct (existsb _ _); [apply sublist_filter | apply sublist_nil_l].
  - intros word Hin. apply extract_keywords_elem in Hin as (_ & Hlen & Hstop).
    split; [done |]. intros Hb. apply Hstop.
    unfold stopwords_with. destruct exclude_words as [[|e E]|]; [done | | done].
    by apply elem_of_union_l.
Qed.

(** X4. Excluding words is the same as removing them from the keywords
    extracted without exclusions. *)
Theorem extract_keywords_exclusion_filter (morphs : str → list str) (lower : str → str)
    (text : str) (E : list str) (include_words : option (list str)) :
  extract_keywords morphs lower text (Some E) include_words
  = filter (λ word, word ∉ E) (extract_keywords morphs lower text None include_words).
Proof.
  unfold extract_keywords. destruct (decide (text = [])); [done |].
  assert (filter (λ word : str, (2 ≤ length word)%nat ∧ word ∉ stopwords_with (Some E))
            (morphs text)
          = filter (λ word, word ∉ E)
              (filter (λ word : str, (2 ≤ length word)%nat ∧ word ∉ stopwords_with None)
                 (morphs text))) as Hf.
  { rewrite list_filter_filter. apply list_filter_iff. intros word.
    unfold stopwords_with. destruct E as [|e E].
    - split; [intros [? ?]; split; [apply not_elem_of_nil | done] | tauto].
    - rewrite elem_of_union, elem_of_list_to_set. tauto. }
  destruct include_words as [[|i inc]|]; try done.
  destruct (existsb _ _); done.
Qed.

(** ** Pair counting: keys and empty results *)

Lemma str_leb_total (a b : str) : str_leb a b = true ∨ str_leb b a = true.
Proof.
  revert b. induction a as [|x a IH]; intros [|y b]; simpl; auto.
  destruct (decide (x = y)) as [-> | Hne].
  - rewrite decide_True by done. apply IH.
  - rewrite decide_False by done. rewrite !bool_decide_eq_true. lia.
Qed.

Lemma str_leb_antisym (a b : str) :
  str_leb a b = true → str_leb b a = true → a = b.
Proof.
  revert b. induction a as [|x a IH]; intros [|y b]; simpl; try done.
  destruct (decide (x = y)) as [-> | Hne].
  - rewrite decide_True by done. intros H1 H2. f_equal. by apply IH.
  - rewrite decide_False by done. rewrite !bool_decide_eq_true. lia.
Qed.

Lemma sorted_pair_comm (word1 word2 : str) :
  sorted_pair word1 word2 = sorted_pair word2 word1.
Proof.
  unfold sorted_pair.
  destruct (str_leb word1 word2) eqn:E1, (str_leb word2 word1) eqn:E2; try done.
  - by rewrite (str_leb_antisym _ _ E1 E2).
  - destruct (str_leb_total word1 word2); congruence.
Qed.

Lemma sorted_pair_sorted (word1 word2 : str) :
  str_leb (sorted_pair word1 word2).1 (sorted_pair word1 word2).2 = true.
Proof.
  unfold sorted_pair. destruct (str_leb word1 word2) eqn:E; simpl; [done |].
  destruct (str_leb_total word1 word2); congruence.
Qed.

Lemma sorted_pair_words (word1 word2 : str) :
  sorted_pair word1 word2 = (word1, word2) ∨ sorted_pair word1 word2 = (word2, word1).
Proof. unfold sorted_pair. destruct (str_leb word1 word2); auto. Qed.

Section KeyFacts.

(** A property of words that every key of the map has on both sides. *)
Variable S : str → Prop.

Lemma count_pair_keys_in cooccurrence (word1 word2 : str) :
  S word1 → S word2 → keys_in S cooccurrence → keys_in S (count_pair cooccurrence word1 word2).
Proof.
  intros H1 H2 Hk a b c. unfold count_pair.
  destruct (decide (sorted_pair word1 word2 = (a, b))) as [E | Hne].
  - intros _. pose proof (sorted_pair_sorted word1 word2) as Hs. rewrite E in Hs.
    split; [done |].
    destruct (sorted_pair_words word1 word2) as [E' | E']; rewrite E' in E;
      injection E as <- <-; done.
  - rewrite lookup_insert_ne by done. apply Hk.
Qed.

Lemma window_loop_keys_in (keywords : list str) (window_size i : Z) (word1 : str)
    cooccurrence :
  S word1 → Forall S keywords → keys_in S cooccurrence →
  keys_in S (window_loop keywords window_size i word1 cooccurrence).
Proof.
  intros H1 Hall. unfold window_loop. apply foldl_keeps. intros acc j Hacc.
  destruct (decide (i ≠ j)); [| done].
  destruct (keywords !! Z.to_nat j) as [word2|] eqn:Ej; [| done].
  apply count_pair_keys_in; [done | | done].
  rewrite Forall_forall in Hall. apply Hall. by eapply list_elem_of_lookup_2.
Qed.

Lemma keywords_loop_keys_in (keywords : list str) (window_size : Z) cooccurrence :
  Forall S keywords → keys_in S cooccurrence →
  keys_in S (keywords_loop keywords window_size cooccurrence).
Proof.
  intros Hall Hk. unfold keywords_loop.
  assert (Forall (λ p : Z * str, S p.2)
            (zip (seqZ 0 (Z.of_nat (length keywords))) keywords)) as Hzip.
  { rewrite Forall_forall. intros [i w] Hin. apply elem_of_zip_r in Hin.
    rewrite Forall_forall in Hall. by apply Hall. }
  revert cooccurrence Hk. induction Hzip as [|[i w] l Hw _ IH]; intros acc Hacc; [done |].
  simpl. apply IH. by apply window_loop_keys_in.
Qed.

End KeyFacts.

Lemma get_cooccurrence_matrix_keys_in (morphs : str → list str) (lower : str → str)
    (texts : list str) (exclude_words include_words : option (list str))
    (window_size : Z) :
  keys_in
    (λ word, ∃ text, text ∈ texts ∧
                     word ∈ extract_keywords morphs lower text exclude_words include_words)
    (get_cooccurrence_matrix morphs lower texts exclude_words include_words window_size).
Proof.
  unfold get_cooccurrence_matrix.
  set (S := λ word, ∃ text, text ∈ texts ∧
              word ∈ extract_keywords morphs lower text exclude_words include_words).
  assert (∀ l acc, l ⊆ texts → keys_in S acc →
            keys_in S (foldl (λ cooccurrence text,
                                keywords_loop
                                  (extract_keywords morphs lower text exclude_words
                                     include_words) window_size cooccurrence) acc l)) as H.
  { induction l as [|text l IH]; intros acc Hsub Hacc; [done |].
    simpl. apply IH; [set_solver |]. apply keywords_loop_keys_in; [| done].
    rewrite Forall_forall. intros w Hw. exists text. split; [set_solver | done]. }
  apply H; [done |]. intros a b c Hc. by apply lookup_empty_Some in Hc.
Qed.

(** X5. Pairs are counted without regard to the order of their two words,
    under the key that has the smaller word first: every key of the
    co-occurrence map is in that order. *)
Theorem cooccurrence_keys_sorted (morphs : str → list str) (lower : str → str)
    (texts : list str) (exclude_words include_words : option (list str))
    (window_size : Z) :
  (∀ cooccurrence word1 word2,
     count_pair cooccurrence word1 word2 = count_pair cooccurrence word2 word1) ∧
  ∀ a b c,
    get_cooccurrence_matrix morphs lower texts exclude_words include_words window_size
      !! (a, b) = Some c →
    str_leb a b = true.
Proof.
  split.
  - intros cooccurrence word1 word2. unfold count_pair.
    by rewrite (sorted_pair_comm word1 word2).
  - intros a b c Hc.
    by destruct (get_cooccurrence_matrix_keys_in morphs lower texts exclude_words
                   include_words window_size a b c Hc).
Qed.

(** X6. Every node of the network is a keyword of one of the texts; so no
    excluded word is ever a node. *)
Theorem network_nodes_are_keywords (morphs : str → list str) (lower : str → str)
    (texts : list str) (exclude_words include_words : option (list str))
    (window_size min_frequency : Z) (node : str) :
  node ∈ nx.nodes
           (NetworkAnalyzer.create_network
              (get_cooccurrence_matrix morphs lower texts exclude_words include_words
                 window_size) min_frequency) →
  (∃ text, text ∈ texts ∧
           node ∈ extract_keywords morphs lower text exclude_words include_words) ∧
  ∀ E, exclude_words = Some E → node ∉ E.
Proof.
  intros Hnode. apply elem_of_nodes in Hnode.
  apply create_network_spec in Hnode as (v & f & _ & Hkey).
  assert (∃ text, text ∈ texts ∧
            node ∈ extract_keywords morphs lower text exclude_words include_words)
    as (text & Htext & Hkw).
  { destruct Hkey as [Hkey | Hkey];
      apply get_cooccurrence_matrix_keys_in in Hkey as (_ & Ha & Hb); done. }
  split; [by exists text |].
  intros E ->. intros HE.
  apply extract_keywords_elem in Hkw as (_ & _ & Hstop).
  by apply Hstop, stopwords_with_exclude.
Qed.

Lemma network_nodes_are_keywords_witness :
  (∃ text, text ∈ [py "room clean service"; py "clean service"] ∧
           py "clean" ∈ extract_keywords split_words ascii_lower text
                          (Some [py "room"]) None) ∧
  ∀ E, Some [py "room"] = Some E → py "clean" ∉ E.
Proof.
  apply (network_nodes_are_keywords split_words ascii_lower
           [py "room clean service"; py "clean service"] (Some [py "room"]) None 5 2).
  apply elem_of_nodes. vm_compute. eauto.
Defined.

Lemma foldl_fixed {A B} (f : A → B → A) (l : list B) (acc : A) :
  (∀ x, x ∈ l → f acc x = acc) → foldl f acc l = acc.
Proof.
  induction l as [|x l IH]; intros H; simpl; [done |].
  rewrite H by apply list_elem_of_here. apply IH. intros y Hy. apply H. by apply list_elem_of_further.
Qed.

(** The inner loop does nothing when its window holds no position but [i]. *)
Lemma window_loop_fixed (keywords : list str) (window_size i : Z) (word1 : str)
    (cooccurrence : gmap (str * str) Z) :
  (∀ j, Z.max 0 (i - window_size) ≤ j <
        Z.min (Z.of_nat (length keywords)) (i + window_size + 1) → j = i) →
  window_loop keywords window_size i word1 cooccurrence = cooccurrence.
Proof.
  intros Honly. unfold window_loop. apply foldl_fixed. intros j Hj.
  unfold range in Hj. apply elem_of_seqZ in Hj.
  rewrite decide_False; [done |]. intros Hne. apply Hne. symmetry. apply Honly. lia.
Qed.

Lemma keywords_loop_fixed (keywords : list str) (window_size : Z)
    (cooccurrence : gmap (str * str) Z) :
  window_size ≤ 0 ∨ (length keywords ≤ 1)%nat →
  keywords_loop keywords window_size cooccurrence = cooccurrence.
Proof.
  intros Hcase. unfold keywords_loop. apply foldl_fixed. intros [i w] Hin.
  apply elem_of_zip_l, elem_of_seqZ in Hin.
  apply window_loop_fixed. intros j Hj. lia.
Qed.

(** X7. With a window size of 0 or less no pair is counted: the
    co-occurrence map is empty. *)
Theorem nonpositive_window_counts_nothing (morphs : str → list str) (lower : str → str)
    (texts : list str) (exclude_words include_words : option (list str))
    (window_size : Z) :
  window_size ≤ 0 →
  get_cooccurrence_matrix morphs lower texts exclude_words include_words window_size = ∅.
Proof.
  intros Hw. unfold get_cooccurrence_matrix. apply foldl_fixed.
  intros text _. apply keywords_loop_fixed. by left.
Qed.

Lemma nonpositive_window_counts_nothing_witness :
  get_cooccurrence_matrix split_words ascii_lower example_texts None None 0 = ∅.
Proof. apply (nonpositive_window_counts_nothing split_words ascii_lower). lia. Defined.

(** X8. Texts with fewer than two keywords count no pair: when every text
    has at most one keyword (for instance because no text passes the
    inclusion gate), the co-occurrence map is empty and so is the network. *)
Theorem single_keywords_count_nothing (morphs : str → list str) (lower : str → str)
    (texts : list str) (exclude_words include_words : option (list str))
    (window_size min_frequency : Z) :
  (∀ text, text ∈ texts →
     (length (extract_keywords morphs lower text exclude_words include_words) ≤ 1)%nat) →
  get_cooccurrence_matrix morphs lower texts exclude_words include_words window_size = ∅ ∧
  nx.nodes
    (NetworkAnalyzer.create_network
       (get_cooccurrence_matrix morphs lower texts exclude_words include_words window_size)
       min_frequency) = [].
Proof.
  intros Hone.
  assert (get_cooccurrence_matrix morphs lower texts exclude_words include_words
            window_size = ∅) as ->.
  { unfold get_cooccurrence_matrix.
    induction texts as [|text texts IH]; [done |]. simpl.
    rewrite keywords_loop_fixed.
    - apply IH. intros t Ht. apply Hone. by apply list_elem_of_further.
    - right. apply Hone, list_elem_of_here. }
  split; [done |]. unfold NetworkAnalyzer.create_network. by rewrite map_fold_empty.
Qed.

Lemma single_keywords_count_nothing_witness :
  get_cooccurrence_matrix split_words ascii_lower
    [py "room small clean"; py "view nice"] None (Some [py "pool"]) 5 = ∅ ∧
  nx.nodes
    (NetworkAnalyzer.create_network
       (get_cooccurrence_matrix split_words ascii_lower
          [py "room small clean"; py "view nice"] None (Some [py "pool"]) 5) 2) = [].
Proof.
  apply (single_keywords_count_nothing split_words ascii_lower).
  intros text Ht.
  apply elem_of_cons in Ht as [-> | Ht]; [vm_compute; lia |].
  apply elem_of_cons in Ht as [-> | Ht]; [vm_compute; lia |].
  by apply elem_of_nil in Ht.
Defined.

(** ** Pair counting: the exact counts *)

Section SumFacts.

Lemma sumZ_ext (f g : nat → Z) (n : nat) :
  (∀ i, (i < n)%nat → f i = g i) → sumZ f n = sumZ g n.
Proof.
  induction n as [|n IH]; intros H; simpl; [done |].
  rewrite IH, H by (intros; auto with lia). done.
Qed.

Lemma sumZ_add (f g : nat → Z) (n : nat) :
  sumZ (λ i, f i + g i) n = sumZ f n + sumZ g n.
Proof. induction n as [|n IH]; simpl; lia. Qed.

Lemma sumZ_zero (n : nat) : sumZ (λ _, 0) n = 0.
Proof. induction n as [|n IH]; simpl; lia. Qed.

Lemma sumZ_nonneg (f : nat → Z) (n : nat) : (∀ i, 0 ≤ f i) → 0 ≤ sumZ f n.
Proof. intros H. induction n as [|n IH]; simpl; [done |]. specialize (H n). lia. Qed.

(** A symmetric table with an empty diagonal sums to twice its triangle. *)
Lemma sumZ_symmetric (F : nat → nat → Z) (n : nat) :
  (∀ i j, F i j = F j i) → (∀ i, F i i = 0) →
  sumZ (λ i, sumZ (λ j, F i j) n) n = 2 * sumZ (λ j, sumZ (λ i, F i j) j) n.
Proof.
  intros Hsym Hdiag. induction n as [|n IH]; [done |].
  cbn [sumZ]. rewrite sumZ_add, IH, Hdiag.
  rewrite (sumZ_ext (λ j, F n j) (λ i, F i n)) by (intros; apply Hsym). lia.
Qed.

(** The sum over [range(lo, hi)] inside [0, n) as a sum over all positions. *)
Lemma sum_range (g : Z → Z) (lo hi : Z) (n : nat) :
  0 ≤ lo → hi ≤ Z.of_nat n →
  foldr (λ j total, g j + total) 0 (range lo hi)
  = sumZ (λ j, if decide (lo ≤ Z.of_nat j < hi) then g (Z.of_nat j) else 0) n.
Proof.
  intros Hlo. unfold range. revert hi. induction n as [|n IH]; intros hi Hhi.
  - rewrite seqZ_nil by lia. done.
  - cbn [sumZ]. destruct (decide (hi ≤ Z.of_nat n)) as [Hle | Hgt].
    + rewrite decide_False by lia. rewrite IH by done. lia.
    + assert (hi = Z.of_nat n + 1) as -> by lia.
      destruct (decide (lo ≤ Z.of_nat n)) as [Hin | Hout].
      * rewrite decide_True by lia.
        replace (Z.of_nat n + 1 - lo) with ((Z.of_nat n - lo) + 1) by lia.
        rewrite seqZ_app by lia.
        rewrite (seqZ_cons _ 1), (seqZ_nil _ (Z.pred 1)) by lia.
        rewrite foldr_app. simpl.
        replace (lo + (Z.of_nat n - lo)) with (Z.of_nat n) by lia.
        assert (∀ (l : list Z) a, foldr (λ j total, g j + total) a l
                  = foldr (λ j total, g j + total) 0 l + a) as Hacc.
        { induction l as [|x l IHl]; intros a; simpl; [lia |]. rewrite IHl. lia. }
        rewrite Hacc, (IH (Z.of_nat n)) by lia.
        rewrite (sumZ_ext _ (λ j, if decide (lo ≤ Z.of_nat j < Z.of_nat n + 1)
                                  then g (Z.of_nat j) else 0)); [lia |].
        intros i Hi. by repeat destruct (decide _); try lia.
      * rewrite decide_False by lia. rewrite seqZ_nil by lia. simpl.
        rewrite (sumZ_ext _ (λ _, 0)), sumZ_zero; [done |].
        intros i Hi. rewrite decide_False; [done | lia].
Qed.

End SumFacts.

Section ExactCounts.

Implicit Types (cooccurrence : gmap (str * str) Z) (pair : str * str).

Lemma count_of_count_pair cooccurrence (word1 word2 : str) pair :
  count_of (count_pair cooccurrence word1 word2) pair
  = count_of cooccurrence pair
    + (if decide (sorted_pair word1 word2 = pair) then 1 else 0).
Proof.
  unfold count_of, count_pair. destruct (decide _) as [<- | Hne].
  - by rewrite lookup_insert_eq.
  - rewrite lookup_insert_ne by done. lia.
Qed.

Lemma count_of_foldl {B} (f : gmap (str * str) Z → B → gmap (str * str) Z)
    (g : B → Z) (P : B → Prop) pair (l : list B) cooccurrence :
  (∀ acc x, P x → count_of (f acc x) pair = count_of acc pair + g x) →
  Forall P l →
  count_of (foldl f cooccurrence l) pair
  = count_of cooccurrence pair + foldr (λ x total, g x + total) 0 l.
Proof.
  intros Hstep Hall. revert cooccurrence.
  induction Hall as [|x l Hx _ IH]; intros acc; simpl; [lia |].
  rewrite IH, Hstep by done. lia.
Qed.

Variable keywords : list str.
Variable window_size : Z.

Lemma count_of_window_loop (i : nat) (word1 : str) pair cooccurrence :
  keywords !! i = Some word1 →
  count_of (window_loop keywords window_size (Z.of_nat i) word1 cooccurrence) pair
  = count_of cooccurrence pair
    + sumZ (λ j, pair_hit keywords window_size pair i j) (length keywords).
Proof.
  intros Hi. unfold window_loop.
  rewrite (count_of_foldl _
             (λ j, if decide (Z.of_nat i ≠ j) then
                     match keywords !! Z.to_nat j with
                     | Some word2 => if decide (sorted_pair word1 word2 = pair) then 1 else 0
                     | None => 0
                     end
                   else 0) (λ _, True)).
  - f_equal. rewrite (sum_range _ _ _ (length keywords)) by lia.
    apply sumZ_ext. intros j Hj. unfold pair_hit. rewrite Hi, Nat2Z.id.
    destruct (keywords !! j) as [word2|] eqn:Ej.
    + repeat destruct (decide _); try done; exfalso;
        repeat match goal with H : _ ∧ _ |- _ => destruct H end;
        first [ congruence | lia
              | match goal with
                | H : ¬ _ |- _ => apply H; repeat split; first [done | lia]
                end ].
    + repeat destruct (decide _); done.
  - intros acc j _. destruct (decide (Z.of_nat i ≠ j)); [| lia].
    destruct (keywords !! Z.to_nat j); [apply count_of_count_pair | lia].
  - by apply Forall_true.
Qed.

Lemma sum_positions (R : nat → Z) :
  foldr (λ (p : Z * str) total, R (Z.to_nat p.1) + total) 0
    (zip (seqZ 0 (Z.of_nat (length keywords))) keywords)
  = sumZ R (length keywords).
Proof.
  assert (∀ (l : list str) (k : nat),
            foldr (λ (p : Z * str) total, R (Z.to_nat p.1) + total) 0
              (zip (seqZ (Z.of_nat k) (Z.of_nat (length l))) l)
            = sumZ (λ i, R (k + i)%nat) (length l)) as H.
  { induction l as [|x l IH] using rev_ind; intros k; [done |].
    rewrite length_app. simpl. rewrite Nat.add_1_r. cbn [sumZ].
    rewrite seqZ_S.
    rewrite zip_with_app by (rewrite length_seqZ; lia).
    rewrite foldr_app. simpl.
    assert (∀ (l' : list (Z * str)) a,
              foldr (λ (p : Z * str) total, R (Z.to_nat p.1) + total) a l'
              = foldr (λ (p : Z * str) total, R (Z.to_nat p.1) + total) 0 l' + a) as Hacc.
    { induction l' as [|y l' IHl]; intros a; simpl; [lia |]. rewrite IHl. lia. }
    rewrite Hacc, IH.
    replace (Z.to_nat (Z.of_nat k + Z.of_nat (length l))) with (k + length l)%nat by lia.
    lia. }
  specialize (H keywords 0%nat). change (Z.of_nat 0) with 0 in H. rewrite H.
  by apply sumZ_ext.
Qed.

Lemma count_of_keywords_loop pair cooccurrence :
  count_of (keywords_loop keywords window_size cooccurrence) pair
  = count_of cooccurrence pair + 2 * position_pairs keywords window_size pair.
Proof.
  unfold keywords_loop, position_pairs.
  rewrite (count_of_foldl _
             (λ p : Z * str,
                sumZ (λ j, pair_hit keywords window_size pair (Z.to_nat p.1) j)
                  (length keywords))
             (λ p : Z * str, 0 ≤ p.1 ∧ keywords !! Z.to_nat p.1 = Some p.2)).
  - f_equal.
    rewrite (sum_positions
               (λ i, sumZ (λ j, pair_hit keywords window_size pair i j) (length keywords))).
    apply sumZ_symmetric.
    + intros i j. unfold pair_hit.
      destruct (keywords !! i) as [a|], (keywords !! j) as [b|]; try done.
      rewrite (sorted_pair_comm b a).
      repeat destruct (decide _); try done; exfalso;
        repeat match goal with H : _ ∧ _ |- _ => destruct H end;
        match goal with H : ¬ _ |- _ => apply H; repeat split; first [done | lia] end.
    + intros i. unfold pair_hit. destruct (keywords !! i); [| done].
      rewrite decide_False; [done | tauto].
  - intros acc [i w] [Hi Hw]. simpl in *.
    rewrite <- (count_of_window_loop (Z.to_nat i) w) by done.
    by rewrite Z2Nat.id.
  - rewrite Forall_forall. intros [i w] Hin. simpl.
    apply list_elem_of_lookup in Hin as [k Hk].
    apply lookup_zip_with_Some in Hk as (i' & w' & [= <- <-] & Hi & Hw).
    apply lookup_seqZ in Hi as [-> Hlt]. split; [lia |].
    by rewrite Z.add_0_l, Nat2Z.id.
Qed.

End ExactCounts.

Lemma get_cooccurrence_matrix_positive (morphs : str → list str) (lower : str → str)
    (texts : list str) (exclude_words include_words : option (list str))
    (window_size : Z) :
  all_positive
    (get_cooccurrence_matrix morphs lower texts exclude_words include_words window_size).
Proof.
  unfold get_cooccurrence_matrix. apply foldl_keeps.
  - intros acc text Hacc. by apply keywords_loop_positive.
  - intros pair c H. by apply lookup_empty_Some in H.
Qed.

Lemma count_of_get_cooccurrence_matrix (morphs : str → list str) (lower : str → str)
    (texts : list str) (exclude_words include_words : option (list str))
    (window_size : Z) (pair : str * str) :
  count_of
    (get_cooccurrence_matrix morphs lower texts exclude_words include_words window_size)
    pair
  = 2 * all_position_pairs morphs lower texts exclude_words include_words window_size pair.
Proof.
  unfold get_cooccurrence_matrix, all_position_pairs.
  rewrite (count_of_foldl _
             (λ text, 2 * position_pairs
                            (extract_keywords morphs lower text exclude_words include_words)
                            window_size pair) (λ _, True)).
  - unfold count_of. rewrite lookup_empty. simpl.
    induction texts as [|text l IH]; simpl; lia.
  - intros acc text _. apply count_of_keywords_loop.
  - by apply Forall_true.
Qed.

(** X9. The count of a pair is exactly twice the number of position pairs
    [i < j], at most the window apart, that hold its two words, summed over
    the texts (each such pair of positions is met once from [i] and once from
    [j]); so every count in the map is even, and it is positive. *)
Theorem cooccurrence_counts_twice (morphs : str → list str) (lower : str → str)
    (texts : list str) (exclude_words include_words : option (list str))
    (window_size : Z) (pair : str * str) :
  default 0
    (get_cooccurrence_matrix morphs lower texts exclude_words include_words window_size
       !! pair)
  = 2 * all_position_pairs morphs lower texts exclude_words include_words window_size pair
  ∧ ∀ c,
      get_cooccurrence_matrix morphs lower texts exclude_words include_words window_size
        !! pair = Some c →
      0 < c.
Proof.
  split; [apply count_of_get_cooccurrence_matrix | apply get_cooccurrence_matrix_positive].
Qed.

(** The example of the specification has three position pairs for
    clean/service and one for bed/view; the counts are twice that. *)
Example example_position_pairs :
  all_position_pairs split_words ascii_lower example_texts None None 5
    (py "clean", py "service") = 3 ∧
  all_position_pairs split_words ascii_lower example_texts None None 5
    (py "bed", py "view") = 1.
Proof. split; reflexivity. Qed.

(** ** The network: symmetry, weights and thresholds *)
Section NetworkFacts.

Implicit Types (G : gmap str (gmap str Z)) (u v a b : str) (w : Z).

Lemma lookup_neighbors_add_edge G a b w u v :
  neighbors (nx.add_edge a b w G) u !! v
  = if decide ((u = a ∧ v = b) ∨ (u = b ∧ v = a)) then Some w
    else neighbors G u !! v.
Proof.
  rewrite neighbors_add_edge.
  destruct (decide (b = u)) as [Hb | Hb], (decide (a = u)) as [Ha | Ha]; simpl;
    rewrite ?lookup_insert; repeat case_decide; try done; exfalso; subst; intuition.
Qed.

Lemma create_network_symmetric (m : gmap (str * str) Z) (t : Z) u v :
  neighbors (NetworkAnalyzer.create_network m t) u !! v
  = neighbors (NetworkAnalyzer.create_network m t) v !! u.
Proof.
  revert u v. unfold NetworkAnalyzer.create_network.
  apply (map_fold_weak_ind (λ G _, ∀ u v, neighbors G u !! v = neighbors G v !! u)).
  - intros u v. unfold neighbors, nx.empty_graph. by rewrite !lookup_empty.
  - intros [a b] x m' G _ IH u v. destruct (decide (t ≤ x)); [| apply IH].
    rewrite !lookup_neighbors_add_edge, IH.
    repeat case_decide; try done; exfalso; subst; intuition.
Qed.

(** With keys in sorted order, the weight of an edge is the count of its
    pair. *)
Lemma create_network_weight (m : gmap (str * str) Z) (t : Z) :
  (∀ a b c, m !! (a, b) = Some c → str_leb a b = true) →
  ∀ u v f,
    neighbors (NetworkAnalyzer.create_network m t) u !! v = Some f ↔
    t ≤ f ∧ m !! sorted_pair u v = Some f.
Proof.
  unfold NetworkAnalyzer.create_network.
  apply (map_fold_weak_ind
           (λ G m, (∀ a b c, m !! (a, b) = Some c → str_leb a b = true) →
                   ∀ u v f, neighbors G u !! v = Some f ↔
                            t ≤ f ∧ m !! sorted_pair u v = Some f)).
  - intros _ u v f. unfold neighbors, nx.empty_graph.
    rewrite !lookup_empty. simpl. rewrite !lookup_empty. split; [done | by intros [_ ?]].
  - intros [a b] x m' G Hnone IH Hsorted u v f.
    assert (str_leb a b = true) as Hab.
    { apply (Hsorted a b x). by rewrite lookup_insert_eq. }
    assert (∀ a' b' c, m' !! (a', b') = Some c → str_leb a' b' = true) as Hsorted'.
    { intros a' b' c Hc. apply (Hsorted a' b' c).
      rewrite lookup_insert_ne; [done |]. intros E. rewrite E in Hnone. congruence. }
    specialize (IH Hsorted' u v f).
    assert (sorted_pair u v = (a, b) ↔ (u = a ∧ v = b) ∨ (u = b ∧ v = a)) as Hkey.
    { split.
      - destruct (sorted_pair_words u v) as [E | E]; rewrite E; intros [= ? ?]; subst; auto.
      - intros [[-> ->] | [-> ->]].
        + unfold sorted_pair. by rewrite Hab.
        + rewrite sorted_pair_comm. unfold sorted_pair. by rewrite Hab. }
    destruct (decide (sorted_pair u v = (a, b))) as [E | Hne].
    + rewrite E, lookup_insert_eq. rewrite E, Hnone in IH.
      destruct (decide (t ≤ x)).
      * rewrite lookup_neighbors_add_edge, decide_True by by apply Hkey.
        split; [by intros [= <-] | by intros [_ ?]].
      * rewrite IH. split; [by intros [_ ?] | intros [? [= <-]]; lia].
    + rewrite lookup_insert_ne by done.
      destruct (decide (t ≤ x)); [| done].
      rewrite lookup_neighbors_add_edge, decide_False; [done |].
      intros H. by apply Hne, Hkey.
Qed.

End NetworkFacts.

(** X10. The network is undirected and has no isolated node: the weight
    from [u] to [v] is the weight from [v] to [u], and every node has a
    degree of at least 1. *)
Theorem create_network_undirected (cooccurrence : gmap (str * str) Z)
    (min_frequency : Z) (u v : str) :
  let G := NetworkAnalyzer.create_network cooccurrence min_frequency in
  neighbors G u !! v = neighbors G v !! u ∧
  nx.has_edge G u v = nx.has_edge G v u ∧
  (u ∈ nx.nodes G → (1 ≤ nx.degree G u)%nat).
Proof.
  intros G. split; [apply create_network_symmetric |]. split.
  - pose proof (create_network_symmetric cooccurrence min_frequency u v) as Hsym.
    fold G in Hsym.
    destruct (nx.has_edge G u v) eqn:E1, (nx.has_edge G v u) eqn:E2; try done.
    + apply has_edge_neighbors in E1. rewrite Hsym in E1.
      apply has_edge_neighbors in E1. congruence.
    + apply has_edge_neighbors in E2. rewrite <- Hsym in E2.
      apply has_edge_neighbors in E2. congruence.
  - intros Hu. apply elem_of_nodes in Hu.
    apply create_network_spec in Hu as [w Hw].
    apply create_network_spec in Hw. fold G in Hw.
    rewrite degree_neighbors.
    assert (size (neighbors G u) ≠ 0)%nat; [| lia].
    intros H0. apply map_size_empty_inv in H0. rewrite H0, lookup_empty in Hw.
    by destruct Hw.
Qed.

(** X11. In the network of the pipeline the weight of an edge is the
    co-occurrence count of its pair, and it reaches the threshold: [u] and
    [v] are joined with weight [f] exactly when the count of their sorted
    pair is [f] and [f] is at least the minimum frequency. *)
Theorem network_weights_are_counts (morphs : str → list str) (lower : str → str)
    (texts : list str) (exclude_words include_words : option (list str))
    (window_size min_frequency : Z) (u v : str) (f : Z) :
  let cooccurrence :=
    get_cooccurrence_matrix morphs lower texts exclude_words include_words window_size in
  neighbors (NetworkAnalyzer.create_network cooccurrence min_frequency) u !! v = Some f ↔
  min_frequency ≤ f ∧ cooccurrence !! sorted_pair u v = Some f.
Proof.
  intros cooccurrence. apply create_network_weight.
  intros a b c Hc.
  by destruct (get_cooccurrence_matrix_keys_in morphs lower texts exclude_words
                 include_words window_size a b c Hc).
Qed.

(** X12. A threshold above every count leaves no edge and no node, and the
    centrality table of that graph is empty. *)
Theorem threshold_above_counts_empty
    (betweenness_centrality closeness_centrality : gmap str (gmap str Z) → str → Q)
    (eigenvector_centrality : gmap str (gmap str Z) → option (str → Q))
    (cooccurrence : gmap (str * str) Z) (min_frequency : Z) :
  (∀ pair c, cooccurrence !! pair = Some c → c < min_frequency) →
  let G := NetworkAnalyzer.create_network cooccurrence min_frequency in
  nx.nodes G = [] ∧
  nx.number_of_edges G = 0%nat ∧
  NetworkAnalyzer.calculate_centrality_metrics betweenness_centrality
    closeness_centrality eigenvector_centrality (Some G) = Some [].
Proof.
  intros Hlow G.
  assert (nx.nodes G = []) as Hnodes.
  { destruct (nx.nodes G) as [|u l] eqn:E; [done |].
    assert (u ∈ nx.nodes G) as Hu by (rewrite E; apply list_elem_of_here).
    apply elem_of_nodes, create_network_spec in Hu as (v & f & Hf & [H | H]);
      apply Hlow in H; lia. }
  split; [done |]. split.
  - unfold nx.number_of_edges. by rewrite Hnodes.
  - unfold NetworkAnalyzer.calculate_centrality_metrics, nx.number_of_nodes.
    rewrite Hnodes. by rewrite decide_True.
Qed.

Lemma threshold_above_counts_empty_witness :
  let G := NetworkAnalyzer.create_network example_cooccurrence 7 in
  nx.nodes G = [] ∧
  nx.number_of_edges G = 0%nat ∧
  NetworkAnalyzer.calculate_centrality_metrics (λ _ _, 0%Q) (λ _ _, 0%Q) (λ _, None)
    (Some G) = Some [].
Proof.
  apply (threshold_above_counts_empty (λ _ _, 0%Q) (λ _ _, 0%Q) (λ _, None)
           example_cooccurrence 7).
  assert (map_Forall (λ _ c, c < 7) example_cooccurrence) as Hall.
  { apply map_Forall_to_list. vm_compute.
    repeat (apply Forall_cons_2; [done |]). apply Forall_nil_2. }
  intros pair c Hc. by apply (Hall pair c).
Defined.

Lemma degree_ge_total : Total pd.degree_ge.
Proof.
  intros r1 r2. unfold pd.degree_ge. rewrite !Qle_bool_iff.
  destruct (Qlt_le_dec (pd.degree_centrality r1) (pd.degree_centrality r2)) as [H | H].
  - right. by apply Qlt_le_weak.
  - by left.
Qed.

Lemma degree_ge_trans : Transitive pd.degree_ge.
Proof.
  intros r1 r2 r3. unfold pd.degree_ge. rewrite !Qle_bool_iff.
  intros H1 H2. by eapply Qle_trans.
Qed.

(** X13. The rows of the centrality table are in descending order of their
    degree score: a row never has a higher degree score than a row before
    it. *)
Theorem centrality_table_sorted
    (betweenness_centrality closeness_centrality : gmap str (gmap str Z) → str → Q)
    (eigenvector_centrality : gmap str (gmap str Z) → option (str → Q))
    (G : gmap str (gmap str Z)) :
  ∃ df,
    NetworkAnalyzer.calculate_centrality_metrics betweenness_centrality
      closeness_centrality eigenvector_centrality (Some G) = Some df ∧
    ∀ (i j : nat) (ri rj : pd.Row),
      (i < j)%nat → df !! i = Some ri → df !! j = Some rj →
      (pd.degree_centrality rj <= pd.degree_centrality ri)%Q.
Proof.
  eexists. split; [apply calculate_rows |].
  set (rows := rounded_row _ _ _ G <$> nx.nodes G).
  assert (StronglySorted pd.degree_ge (pd.sort_values rows)) as Hsorted.
  { pose proof degree_ge_total as Htotal. pose proof degree_ge_trans as Htrans.
    apply Sorted_StronglySorted; [done |]. by apply Sorted_merge_sort. }
  intros i j ri rj Hij Hi Hj.
  rewrite <- (take_drop j (pd.sort_values rows)) in Hsorted.
  apply Qle_bool_iff.
  apply (StronglySorted_app_1_elem_of _ _ _ ri rj Hsorted).
  - apply list_elem_of_lookup. exists i. by rewrite lookup_take_lt.
  - apply list_elem_of_lookup. exists 0%nat. rewrite lookup_drop. by rewrite Nat.add_0_r.
Qed.

(** ** The topic modeler: its state and its queries *)

(** X14. Whatever calls of [fit_lda_model] a new modeler has seen, and
    however the library fits went, a document-topic matrix is only in place
    beside a model, and a model only beside a vectorizer. *)
Theorem fit_lda_model_keeps_order (is_space : char → bool)
    (fit_transform_counts :
       sklearn.CountVectorizer → list str →
       sklearn.CountVectorizer * option (list (list Z)))
    (fit_transform_lda :
       sklearn.LatentDirichletAllocation → list (list Z) →
       sklearn.LatentDirichletAllocation * option (list (list Q)))
    (calls : list (list str * Z * Z)) :
  let self :=
    fit_all is_space fit_transform_counts fit_transform_lda calls TopicModeler.init in
  (is_Some (TopicModeler.doc_topic_matrix self) → is_Some (TopicModeler.lda_model self)) ∧
  (is_Some (TopicModeler.lda_model self) → is_Some (TopicModeler.vectorizer self)).
Proof.
  unfold fit_all.
  apply (foldl_keeps _
           (λ self,
              (is_Some (TopicModeler.doc_topic_matrix self) →
               is_Some (TopicModeler.lda_model self)) ∧
              (is_Some (TopicModeler.lda_model self) →
               is_Some (TopicModeler.vectorizer self)))).
  - intros self [[texts n_topics] max_features] [H1 H2].
    unfold TopicModeler.fit_lda_model.
    destruct (TopicModeler.no_text is_space texts); [done |].
    destruct (fit_transform_counts _ texts) as [v [dtm|]]; [| by split; eauto].
    destruct (decide _); [by split; eauto |].
    destruct (fit_transform_lda _ dtm) as [md [mx|]]; simpl; split; eauto.
  - simpl. split; intros [? ?]; done.
Qed.

Section QueryRows.

Lemma argsort_perm (topic : list Q) : np.argsort topic ≡ₚ seq 0 (length topic).
Proof.
  unfold np.argsort. rewrite merge_sort_Permutation.
  rewrite fst_zip; [done |]. by rewrite length_seq.
Qed.

Lemma last_n_subseteq {A} (n : Z) (l : list A) : np.last_n n l ⊆ l.
Proof. unfold np.last_n. apply subseteq_drop. Qed.


Lemma top_words_idx_lt (n : Z) (topic : list Q) (i : nat) :
  i ∈ TopicModeler.top_words_idx n topic → (i < length topic)%nat.
Proof.
  unfold TopicModeler.top_words_idx. rewrite elem_of_reverse. intros Hi.
  apply last_n_subseteq in Hi. rewrite argsort_perm in Hi.
  apply elem_of_seq in Hi. lia.
Qed.


Lemma traverse_ok {A B} (f : A → result B) (P : A → B → Prop) (xs : list A) :
  (∀ x, x ∈ xs → ∃ y, f x = Ok y ∧ P x y) →
  ∃ ys, traverse f xs = Ok ys ∧ Forall2 P xs ys.
Proof.
  induction xs as [|x xs IH]; intros H; simpl.
  - exists []. by split.
  - destruct (H x) as (y & Hy & HP); [apply list_elem_of_here |].
    destruct IH as (ys & Hys & HF).
    { intros x' Hx'. apply H. by apply list_elem_of_further. }
    exists (y :: ys). rewrite Hy, Hys. simpl. split; [done | by constructor].
Qed.

Lemma traverse_index {A} (l : list A) (idx : list nat) :
  Forall (λ i, (i < length l)%nat) idx →
  ∃ xs, traverse (TopicModeler.index l) idx = Ok xs ∧
        length xs = length idx ∧ Forall (λ x, x ∈ l) xs.
Proof.
  intros Hidx.
  destruct (traverse_ok (TopicModeler.index l) (λ _ x, x ∈ l) idx) as (xs & Hxs & HF).
  { intros i Hi. rewrite Forall_forall in Hidx. apply Hidx in Hi.
    apply lookup_lt_is_Some in Hi as [x Hx]. exists x.
    unfold TopicModeler.index. rewrite Hx. split; [done |].
    by eapply list_elem_of_lookup_2. }
  exists xs. split; [done |]. split.
  - symmetry. by eapply Forall2_length.
  - clear Hxs Hidx. induction HF as [|i x idx' xs' Hx _ IH]; [constructor |].
    by constructor.
Qed.

End QueryRows.



(** On the sample modeler the heaviest word of every topic is the first
    feature name, with the weight 1.5. *)
Example sample_topics_dataframe :
  TopicModeler.get_topics_dataframe 1 sample_fitted
  = Ok ((λ k, {| TopicModeler.topic := k; TopicModeler.keyword := py "clean";
                 TopicModeler.weight := pd.round4 (3 # 2) |}) <$> [1; 2; 3; 4; 5]).
Proof. reflexivity. Qed.

(** X16. Under the same agreement [get_topic_keywords_summary] does not
    raise and has one entry per topic, numbered from 1 in the order of the
    components. *)
Theorem get_topic_keywords_summary_topics (self : TopicModeler.t)
    (vec : sklearn.CountVectorizer) (model : sklearn.LatentDirichletAllocation)
    (names : list str) (components : list (list Q)) :
  TopicModeler.vectorizer self = Some vec →
  TopicModeler.lda_model self = Some model →
  sklearn.vocabulary_ vec = Some names →
  sklearn.components_ model = Some components →
  Forall (λ topic, (length topic ≤ length names)%nat) components →
  ∃ summary,
    TopicModeler.get_topic_keywords_summary self = Ok summary ∧
    summary.*1 = seqZ 1 (Z.of_nat (length components)).
Proof.
  intros Hvec Hmodel Hnames Hcomps Hdim.
  unfold TopicModeler.get_topic_keywords_summary. rewrite Hvec, Hmodel.
  unfold sklearn.get_feature_names_out, sklearn.get_components.
  rewrite Hnames, Hcomps. cbn [bind]. unfold TopicModeler.topics_summary.
  set (per_topic := λ '(topic_idx, topic_weights), _).
  destruct (traverse_ok per_topic (λ (x : Z * list Q) (e : Z * str), e.1 = x.1 + 1)
              (zip (seqZ 0 (Z.of_nat (length components))) components))
    as (summary & Hsummary & HF).
  { intros [k topic] Hin. unfold per_topic.
    assert (topic ∈ components) as Htopic by by eapply elem_of_zip_r.
    rewrite Forall_forall in Hdim. specialize (Hdim topic Htopic).
    destruct (traverse_index names (TopicModeler.top_words_idx 5 topic))
      as (words & Hwords & _).
    { rewrite Forall_forall. intros i Hi. apply top_words_idx_lt in Hi. lia. }
    rewrite Hwords. cbn [bind]. eexists. by split. }
  exists summary. split; [done |].
  assert (summary.*1
          = (λ k, k + 1) <$> (zip (seqZ 0 (Z.of_nat (length components))) components).*1)
    as ->.
  { clear Hsummary. induction HF as [|x e xs es He _ IH]; [done |].
    csimpl. by rewrite He, IH. }
  rewrite fst_zip by (rewrite length_seqZ; lia).
  rewrite <- (fmap_add_seqZ 1 0). apply list_fmap_ext. intros; lia.
Qed.

Lemma get_topic_keywords_summary_topics_witness :
  ∃ summary,
    TopicModeler.get_topic_keywords_summary sample_fitted = Ok summary ∧
    summary.*1 = seqZ 1 (Z.of_nat (length sample_components)).
Proof.
  apply (get_topic_keywords_summary_topics sample_fitted
           {| sklearn.max_features := 100;
              sklearn.vocabulary_ := Some sample_vocabulary |}
           sample_model sample_vocabulary sample_components);
    try reflexivity.
  repeat (apply Forall_cons_2; [simpl; lia |]). apply Forall_nil_2.
Defined.

(** ** The driver: keyword lists and result counts *)
Section ParseFacts.

Variable is_space : char → bool.

Lemma split_char_nonempty (sep : char) (s : str) : split_char sep s ≠ [].
Proof.
  induction s as [|c s IH]; simpl; [done |].
  destruct (decide (c = sep)); [done |]. by destruct (split_char sep s).
Qed.

Lemma split_char_no_sep (sep : char) (s piece : str) :
  piece ∈ split_char sep s → sep ∉ piece.
Proof.
  revert piece. induction s as [|c s IH]; intros piece; simpl.
  - intros ->%list_elem_of_singleton. apply not_elem_of_nil.
  - destruct (decide (c = sep)) as [-> | Hne].
    + intros [-> | H]%elem_of_cons; [apply not_elem_of_nil | by apply IH].
    + destruct (split_char sep s) as [|p ps]; simpl.
      * intros ->%list_elem_of_singleton. intros [E | H]%elem_of_cons; [done |].
        by apply elem_of_nil in H.
      * intros [-> | H]%elem_of_cons.
        -- intros [E | H]%elem_of_cons; [done |].
           by apply (IH p); [apply list_elem_of_here |].
        -- apply IH. by apply list_elem_of_further.
Qed.

Lemma split_char_app (sep : char) (pre s : str) :
  sep ∉ pre →
  split_char sep (pre ++ sep :: s) = pre :: split_char sep s.
Proof.
  induction pre as [|c pre IH]; intros Hpre; simpl.
  - by rewrite decide_True.
  - rewrite decide_False by (intros ->; apply Hpre, list_elem_of_here).
    rewrite IH; [done |]. intros H. by apply Hpre, list_elem_of_further.
Qed.

Lemma split_char_whole (sep : char) (s : str) :
  sep ∉ s → split_char sep s = [s].
Proof.
  induction s as [|c s IH]; intros Hs; simpl; [done |].
  rewrite decide_False by (intros ->; apply Hs, list_elem_of_here).
  rewrite IH; [done |]. intros H. by apply Hs, list_elem_of_further.
Qed.

Lemma split_char_join (words : list str) (word : str) :
  Forall (λ w, comma ∉ w) (word :: words) →
  split_char comma (join [comma; space] (word :: words))
  = word :: ((λ w, space :: w) <$> words).
Proof.
  revert word. induction words as [|w2 words IH]; intros word Hall.
  - simpl. apply split_char_whole. by apply Forall_inv in Hall.
  - apply Forall_cons in Hall as [Hw Hall].
    change (join [comma; space] (word :: w2 :: words))
      with (word ++ comma :: space :: join [comma; space] (w2 :: words)).
    rewrite split_char_app by done. f_equal.
    cbn [split_char]. rewrite decide_False by done.
    rewrite IH by done. done.
Qed.

End ParseFacts.

(** X17. An empty input gives no keyword list. Every other input gives the
    list of its pieces between commas, stripped of whitespace and without
    the empty ones: each word of the list is non-empty, has no comma and
    neither starts nor ends with whitespace. *)
Theorem parse_keywords_words (is_space : char → bool) (keywords : str) :
  match App.parse_keywords is_space keywords with
  | None => keywords = []
  | Some words =>
      keywords ≠ [] ∧
      Forall (λ word, word ≠ [] ∧ (comma ∉ word) ∧ strip is_space word = word) words
  end.
Proof.
  unfold App.parse_keywords. destruct (decide (keywords = [])); [done |].
  split; [done |]. rewrite Forall_forall. intros word Hin.
  apply list_elem_of_filter in Hin as [Hne Hin].
  apply list_elem_of_fmap in Hin as (piece & -> & Hpiece).
  split; [done |]. split; [| apply strip_idemp].
  intros Hcomma. apply (split_char_no_sep comma keywords piece Hpiece).
  destruct (strip_infix is_space piece) as (pre & post & E). rewrite E.
  apply elem_of_app. right. apply elem_of_app. by left.
Qed.

(** X18. The keyword list survives its display: a non-empty list of words
    that are non-empty, comma-free and stripped, joined by a comma and a
    space as the sidebar shows it, is parsed back to the same list. *)
Theorem parse_keywords_join (is_space : char → bool) (words : list str) :
  is_space space = true →
  words ≠ [] →
  Forall (λ word, word ≠ [] ∧ (comma ∉ word) ∧ strip is_space word = word) words →
  App.parse_keywords is_space (join [comma; space] words) = Some words.
Proof.
  intros Hsp Hne Hall. destruct words as [|word words]; [done |]. clear Hne.
  unfold App.parse_keywords.
  assert (join [comma; space] (word :: words) ≠ []) as Hjoin.
  { apply Forall_inv in Hall as [Hw _]. destruct words; simpl; [done |].
    destruct word; [done | discriminate]. }
  rewrite decide_False by done. f_equal.
  rewrite split_char_join.
  2:{ eapply Forall_impl; [exact Hall |]. by intros w (_ & ? & _). }
  clear Hjoin. csimpl.
  assert (∀ l, Forall (λ word, word ≠ [] ∧ (comma ∉ word) ∧ strip is_space word = word) l →
            filter (λ word : str, word ≠ [])
              (strip is_space <$> ((λ w, space :: w) <$> l)) = l) as Hrest.
  { induction 1 as [|w l (Hw & _ & Hs) _ IH]; csimpl; [done |].
    assert (strip is_space (space :: w) = w) as ->.
    { unfold strip in *. simpl. by rewrite Hsp. }
    rewrite filter_cons_True by done. by rewrite IH. }
  apply Forall_cons in Hall as [(Hw & _ & Hs) Hall].
  rewrite Hs, filter_cons_True by done. f_equal. by apply Hrest.
Qed.

Lemma parse_keywords_join_witness :
  App.parse_keywords ascii_is_space (join [comma; space] [py "room"; py "hotel"; py "view"])
  = Some [py "room"; py "hotel"; py "view"].
Proof.
  apply (parse_keywords_join ascii_is_space [py "room"; py "hotel"; py "view"]).
  - reflexivity.
  - discriminate.
  - repeat (apply Forall_cons_2;
            [split; [discriminate | split; [| reflexivity]];
             refine (bool_decide_unpack _ _); vm_compute; exact I |]).
    apply Forall_nil_2.
Defined.

Lemma split_char_Forall (P : char → Prop) (sep : char) (s : str) :
  Forall P s → Forall (Forall P) (split_char sep s).
Proof.
  induction 1 as [|c s Hc _ IH]; simpl; [by repeat constructor |].
  destruct (decide (c = sep)); [by constructor |].
  destruct (split_char sep s) as [|p ps]; [by repeat constructor |].
  apply Forall_cons in IH as [Hp Hps]. by repeat constructor.
Qed.

(** X19. An input of nothing but commas and whitespace gives the empty
    keyword list, and the empty list filters like no list at all: it
    excludes no word and shuts no text out. *)
Theorem parse_keywords_blank (is_space : char → bool)
    (morphs : str → list str) (lower : str → str) (keywords text : str) :
  keywords ≠ [] →
  Forall (λ c, c = comma ∨ is_space c = true) keywords →
  App.parse_keywords is_space keywords = Some [] ∧
  extract_keywords morphs lower text (Some []) (Some [])
  = extract_keywords morphs lower text None None.
Proof.
  intros Hne Hall. split; [| done].
  unfold App.parse_keywords. rewrite decide_False by done. f_equal.
  assert (Forall (Forall (λ c, is_space c = true)) (split_char comma keywords)) as Hpieces.
  { rewrite Forall_forall. intros piece Hpiece.
    pose proof (split_char_no_sep comma keywords piece Hpiece) as Hno.
    pose proof (split_char_Forall _ comma keywords Hall) as Hp.
    rewrite Forall_forall in Hp. specialize (Hp piece Hpiece).
    rewrite Forall_forall in Hp. rewrite Forall_forall. intros c Hc.
    destruct (Hp c Hc) as [-> | H]; [done | done]. }
  induction Hpieces as [|piece pieces Hpiece _ IH]; csimpl; [done |].
  rewrite (Forall_space_strip is_space piece Hpiece).
  by rewrite filter_cons_False by auto.
Qed.

Lemma parse_keywords_blank_witness :
  App.parse_keywords ascii_is_space (py " , ,, ") = Some [] ∧
  extract_keywords split_words ascii_lower (py "room clean") (Some []) (Some [])
  = extract_keywords split_words ascii_lower (py "room clean") None None.
Proof.
  apply (parse_keywords_blank ascii_is_space split_words ascii_lower (py " , ,, ")).
  - discriminate.
  - repeat (apply Forall_cons_2; [vm_compute; auto |]). apply Forall_nil_2.
Defined.

Section DriverFacts.

Variable is_word is_space is_digit : char → bool.
Variable morphs : str → list str.
Variable lower : str → str.
Variable fit_transform_counts :
  sklearn.CountVectorizer → list str → sklearn.CountVectorizer * option (list (list Z)).
Variable fit_transform_lda :
  sklearn.LatentDirichletAllocation → list (list Z) →
  sklearn.LatentDirichletAllocation * option (list (list Q)).

Lemma length_filter_texts (texts : list str) (exclude_words include_words : option (list str)) :
  (length (App.filter_texts morphs lower texts exclude_words include_words)
   ≤ length texts)%nat.
Proof.
  unfold App.filter_texts. induction texts as [|text texts IH]; csimpl; [done |].
  destruct (extract_keywords _ _ _ _ _); simpl; lia.
Qed.

End DriverFacts.

(** X20. The numbers of an analysis fit together: when it reports a count
    of analysed texts, that count is at least 1 and at most the number of
    rows, there are at most as many filtered texts as analysed ones, and the
    graph it returns is the graph the network analyzer holds afterwards.
    When it reports none, nothing else is returned and the session is left
    as it was. *)
Theorem perform_realtime_analysis_counts
    (is_word is_space is_digit : char → bool)
    (morphs : str → list str) (lower : str → str)
    (fit_transform_counts :
       sklearn.CountVectorizer → list str →
       sklearn.CountVectorizer * option (list (list Z)))
    (fit_transform_lda :
       sklearn.LatentDirichletAllocation → list (list Z) →
       sklearn.LatentDirichletAllocation * option (list (list Q)))
    (data : list (option str)) (exclude_words include_words : option (list str))
    (n_topics min_frequency : Z) (st : App.session_state) :
  let run :=
    App.perform_realtime_analysis is_word is_space is_digit morphs lower
      fit_transform_counts fit_transform_lda
      data exclude_words include_words n_topics min_frequency st in
  match App.total_texts run.1 with
  | Some n =>
      (1 ≤ n ≤ length data)%nat ∧
      ∃ documents graph,
        App.filtered_texts run.1 = Some documents ∧
        (length documents ≤ n)%nat ∧
        App.network_graph run.1 = Some graph ∧
        App.network_analyzer run.2 = Some graph
  | None =>
      App.network_graph run.1 = None ∧ App.filtered_texts run.1 = None ∧
      App.topic_model run.1 = None ∧ run.2 = st
  end.
Proof.
  intros run. unfold run, App.perform_realtime_analysis.
  set (texts := List.filter _ _).
  assert (length texts ≤ length data)%nat as Hlen.
  { unfold texts. etrans; [apply List.filter_length_le |]. by rewrite length_fmap. }
  destruct texts as [|text texts]; [done |].
  destruct (if decide _ then _ else _) as [model modeler].
  cbn [fst snd App.total_texts App.filtered_texts App.network_graph App.network_analyzer].
  split; [cbn [length] in *; lia |].
  do 2 eexists. split; [done |]. split; [| done].
  apply length_filter_texts.
Qed.



(** ** Pair counting: more texts, larger windows, other orders *)
Section AccumulateFacts.

Variable morphs : str → list str.
Variable lower : str → str.
Variable exclude_words include_words : option (list str).

#[local] Abbreviation cooccurrence_of texts window_size :=
  (get_cooccurrence_matrix morphs lower texts exclude_words include_words window_size).
#[local] Abbreviation pairs_of texts window_size :=
  (all_position_pairs morphs lower texts exclude_words include_words window_size).

Lemma count_of_cooccurrence (texts : list str) (window_size : Z) (pair : str * str) :
  count_of (cooccurrence_of texts window_size) pair = 2 * pairs_of texts window_size pair.
Proof. apply count_of_get_cooccurrence_matrix. Qed.

Lemma sumZ_mono (f g : nat → Z) (n : nat) :
  (∀ i, f i ≤ g i) → sumZ f n ≤ sumZ g n.
Proof. intros H. induction n as [|n IH]; simpl; [done |]. specialize (H n). lia. Qed.

Lemma pair_hit_mono (keywords : list str) (w1 w2 : Z) (pair : str * str) (i j : nat) :
  w1 ≤ w2 → pair_hit keywords w1 pair i j ≤ pair_hit keywords w2 pair i j.
Proof.
  intros Hw. unfold pair_hit.
  destruct (keywords !! i), (keywords !! j); try done.
  repeat destruct (decide _); try done. exfalso.
  match goal with H : ¬ _ |- _ => apply H end. intuition lia.
Qed.

Lemma pairs_of_mono (texts : list str) (w1 w2 : Z) (pair : str * str) :
  w1 ≤ w2 → pairs_of texts w1 pair ≤ pairs_of texts w2 pair.
Proof.
  intros Hw. unfold all_position_pairs.
  induction texts as [|text texts IH]; simpl; [done |].
  assert (position_pairs (extract_keywords morphs lower text exclude_words include_words)
            w1 pair
          ≤ position_pairs (extract_keywords morphs lower text exclude_words include_words)
              w2 pair); [| lia].
  unfold position_pairs. apply sumZ_mono. intros j. apply sumZ_mono. intros i.
  by apply pair_hit_mono.
Qed.

Lemma pairs_of_app (texts1 texts2 : list str) (window_size : Z) (pair : str * str) :
  pairs_of (texts1 ++ texts2) window_size pair
  = pairs_of texts1 window_size pair + pairs_of texts2 window_size pair.
Proof.
  unfold all_position_pairs. induction texts1 as [|text texts1 IH]; simpl; lia.
Qed.

Lemma pairs_of_perm (texts1 texts2 : list str) (window_size : Z) (pair : str * str) :
  texts1 ≡ₚ texts2 → pairs_of texts1 window_size pair = pairs_of texts2 window_size pair.
Proof.
  unfold all_position_pairs. induction 1; simpl; lia.
Qed.

(** A map with positive counts is known by its counts. *)
Lemma positive_counts_eq (m1 m2 : gmap (str * str) Z) :
  all_positive m1 → all_positive m2 →
  (∀ pair, count_of m1 pair = count_of m2 pair) → m1 = m2.
Proof.
  intros H1 H2 Heq. apply map_eq. intros pair. specialize (Heq pair).
  unfold count_of in Heq.
  destruct (m1 !! pair) as [c1|] eqn:E1, (m2 !! pair) as [c2|] eqn:E2; simpl in Heq.
  - by subst.
  - apply H1 in E1. lia.
  - apply H2 in E2. lia.
  - done.
Qed.

End AccumulateFacts.

(** X22. Counts accumulate over the documents: the count of a pair for two
    lists of texts one after the other is the sum of its counts for each
    list, a pair that is no key counting as 0. *)
Theorem cooccurrence_counts_add (morphs : str → list str) (lower : str → str)
    (texts1 texts2 : list str) (exclude_words include_words : option (list str))
    (window_size : Z) (pair : str * str) :
  default 0
    (get_cooccurrence_matrix morphs lower (texts1 ++ texts2) exclude_words include_words
       window_size !! pair)
  = default 0
      (get_cooccurrence_matrix morphs lower texts1 exclude_words include_words
         window_size !! pair)
    + default 0
        (get_cooccurrence_matrix morphs lower texts2 exclude_words include_words
           window_size !! pair).
Proof.
  change (default 0 (?m !! pair)) with (count_of m pair).
  rewrite !count_of_cooccurrence, pairs_of_app. lia.
Qed.

(** X23. The order of the documents does not matter: two lists with the
    same texts in another order give the same co-occurrence map. *)
Theorem cooccurrence_order_of_texts (morphs : str → list str) (lower : str → str)
    (texts1 texts2 : list str) (exclude_words include_words : option (list str))
    (window_size : Z) :
  texts1 ≡ₚ texts2 →
  get_cooccurrence_matrix morphs lower texts1 exclude_words include_words window_size
  = get_cooccurrence_matrix morphs lower texts2 exclude_words include_words window_size.
Proof.
  intros Hperm. apply positive_counts_eq; try apply get_cooccurrence_matrix_positive.
  intros pair. rewrite !count_of_cooccurrence. f_equal. by apply pairs_of_perm.
Qed.

Lemma cooccurrence_order_of_texts_witness :
  get_cooccurrence_matrix split_words ascii_lower
    [py "room clean"; py "nice view room"] None None 5
  = get_cooccurrence_matrix split_words ascii_lower
      [py "nice view room"; py "room clean"] None None 5.
Proof.
  apply (cooccurrence_order_of_texts split_words ascii_lower). apply Permutation_swap.
Defined.

(** X24. A larger window loses nothing: no count gets smaller, and every
    edge of the network stays an edge. *)
Theorem larger_window_keeps_edges (morphs : str → list str) (lower : str → str)
    (texts : list str) (exclude_words include_words : option (list str))
    (w1 w2 min_frequency : Z) :
  w1 ≤ w2 →
  (∀ pair,
     default 0
       (get_cooccurrence_matrix morphs lower texts exclude_words include_words w1 !! pair)
     ≤ default 0
         (get_cooccurrence_matrix morphs lower texts exclude_words include_words w2
            !! pair)) ∧
  ∀ u v,
    nx.has_edge
      (NetworkAnalyzer.create_network
         (get_cooccurrence_matrix morphs lower texts exclude_words include_words w1)
         min_frequency) u v = true →
    nx.has_edge
      (NetworkAnalyzer.create_network
         (get_cooccurrence_matrix morphs lower texts exclude_words include_words w2)
         min_frequency) u v = true.
Proof.
  intros Hw.
  assert (∀ pair,
            count_of (get_cooccurrence_matrix morphs lower texts exclude_words
                        include_words w1) pair
            ≤ count_of (get_cooccurrence_matrix morphs lower texts exclude_words
                          include_words w2) pair) as Hcount.
  { intros pair. rewrite !count_of_cooccurrence.
    pose proof (pairs_of_mono morphs lower exclude_words include_words texts w1 w2 pair Hw).
    lia. }
  split; [exact Hcount |].
  intros u v. rewrite !create_network_has_edge.
  assert (∀ k, frequent
                 (get_cooccurrence_matrix morphs lower texts exclude_words include_words w1)
                 min_frequency k.1 k.2 →
               ∃ f1 f2 pair,
                 min_frequency ≤ f1 ∧
                 get_cooccurrence_matrix morphs lower texts exclude_words include_words w1
                   !! pair = Some f1 ∧
                 (pair = (k.1, k.2) ∨ pair = (k.2, k.1)) ∧
                 get_cooccurrence_matrix morphs lower texts exclude_words include_words w2
                   !! pair = Some f2 ∧ f1 ≤ f2) as Hkey.
  { intros [a b] (f & Hf & Hin). simpl in *.
    assert (∃ pair, (pair = (a, b) ∨ pair = (b, a)) ∧
              get_cooccurrence_matrix morphs lower texts exclude_words include_words w1
                !! pair = Some f) as (pair & Hpair & H1).
    { destruct Hin; eauto. }
    pose proof (Hcount pair) as Hle. unfold count_of in Hle. rewrite H1 in Hle.
    pose proof (get_cooccurrence_matrix_positive morphs lower texts exclude_words
                  include_words w1 pair f H1) as Hpos.
    destruct (get_cooccurrence_matrix morphs lower texts exclude_words include_words w2
                !! pair) as [f2|] eqn:E2; simpl in Hle; [| lia].
    exists f, f2, pair. done. }
  intros Hfreq. destruct (Hkey (u, v) Hfreq) as (f1 & f2 & pair & Hf1 & _ & Hpair & H2 & Hle).
  exists f2. split; [lia |]. simpl in Hpair. destruct Hpair as [-> | ->]; auto.
Qed.

Lemma larger_window_keeps_edges_witness :
  (∀ pair,
     default 0
       (get_cooccurrence_matrix split_words ascii_lower example_texts None None 1 !! pair)
     ≤ default 0
         (get_cooccurrence_matrix split_words ascii_lower example_texts None None 5
            !! pair)) ∧
  ∀ u v,
    nx.has_edge
      (NetworkAnalyzer.create_network
         (get_cooccurrence_matrix split_words ascii_lower example_texts None None 1) 2)
      u v = true →
    nx.has_edge
      (NetworkAnalyzer.create_network
         (get_cooccurrence_matrix split_words ascii_lower example_texts None None 5) 2)
      u v = true.
Proof. apply (larger_window_keeps_edges split_words ascii_lower). lia. Defined.
